(** * Client-side session management of shopstore-frontend

    A shallow embedding of the session lifecycle code:

    - [AuthSlice]      src/redux/slices/authSlice.ts           (SessionState)
    - [TokenStorage]   src/utilities/tokenStorage.ts           (TokenStore)
    - [AuthLink]       apollo/authLink.ts  (unnamed/part_005)  (CredentialInjector)
    - [ErrorLink]      apollo/errorLink.ts (unnamed/part_007)  (FailureInterceptor)
    - [Client]         apollo/client.ts    (unnamed/part_006)
    - [AuthThunks]     src/redux/thunks/authThunks.ts          (SessionActions)

    The browser's [localStorage] is a finite map from strings to strings,
    the Redux store is the [AuthState] record, and the asynchronous thunks
    are state-passing programs over a [World] that also records the
    requests sent and the lines written to the console.  One thunk runs
    from start to end without another one interleaving; what the Apollo
    client delivers for a request is an input.  Strings are sequences of
    8-bit characters, which is enough for storage keys, header names,
    base64 text and tokens. *)

From Stdlib Require Import ZArith QArith String Ascii List Bool Lia.
From stdpp Require Import gmap strings list fin_maps.

(** ** SessionState: src/redux/slices/authSlice.ts *)

Module AuthSlice.

Inductive AuthStatus := IDLE | LOADING | AUTHENTICATED | UNAUTHENTICATED | ERROR.

Inductive AuthErrorType := INVALID_CREDENTIALS | NETWORK_ERROR | UNKNOWN.

Record User := mkUser {
  user_id : Z;
  user_email : string;
  user_name : string;
  user_status : string;
  user_createdAt : string
}.

Record AuthError := mkAuthError {
  error_type : AuthErrorType;
  error_message : string
}.

Record AuthState := mkAuthState {
  user : option User;
  accessToken : option string;
  refreshToken : option string;
  status : AuthStatus;
  error : option AuthError
}.

#[global] Instance AuthStatus_eq_dec : EqDecision AuthStatus.
Proof. solve_decision. Defined.

#[global] Instance AuthErrorType_eq_dec : EqDecision AuthErrorType.
Proof. solve_decision. Defined.

Definition initialState : AuthState :=
  {| user := None; accessToken := None; refreshToken := None;
     status := IDLE; error := None |}.

(** The five case reducers.  Immer's draft mutation is a functional
    record update: every field that is not assigned keeps its value. *)

Definition setUser (state : AuthState) (payload : User) : AuthState :=
  {| user := Some payload;
     accessToken := accessToken state;
     refreshToken := refreshToken state;
     status := AUTHENTICATED;
     error := error state |}.

Definition setTokens (state : AuthState) (payload : string * string) : AuthState :=
  {| user := user state;
     accessToken := Some (fst payload);
     refreshToken := Some (snd payload);
     status := status state;
     error := error state |}.

Definition clearAuth (state : AuthState) : AuthState :=
  {| user := None;
     accessToken := None;
     refreshToken := None;
     status := UNAUTHENTICATED;
     error := None |}.

Definition setError (state : AuthState) (payload : AuthError) : AuthState :=
  {| user := user state;
     accessToken := accessToken state;
     refreshToken := refreshToken state;
     status := ERROR;
     error := Some payload |}.

Definition setStatus (state : AuthState) (payload : AuthStatus) : AuthState :=
  {| user := user state;
     accessToken := accessToken state;
     refreshToken := refreshToken state;
     status := payload;
     error := error state |}.

(** The actions of the slice, with the payload types of the source, and
    the slice reducer that dispatches on them. *)
Inductive Action :=
| SetUser (payload : User)
| SetTokens (payload : string * string)
| ClearAuth
| SetError (payload : AuthError)
| SetStatus (payload : AuthStatus).

Definition reducer (state : AuthState) (action : Action) : AuthState :=
  match action with
  | SetUser p => setUser state p
  | SetTokens p => setTokens state p
  | ClearAuth => clearAuth state
  | SetError p => setError state p
  | SetStatus p => setStatus state p
  end.

(** Selectors; [state] stands for [state.auth] of the root state. *)

Definition selectIsAuthenticated (state : AuthState) : bool :=
  bool_decide (status state = AUTHENTICATED)
  && match user state with Some _ => true | None => false end.

Definition selectCurrentUser (state : AuthState) : option User := user state.

Definition selectAuthStatus (state : AuthState) : AuthStatus := status state.

Definition selectAuthError (state : AuthState) : option AuthError := error state.

Definition selectAccessToken (state : AuthState) : option string := accessToken state.

End AuthSlice.

(** ** The JavaScript built-ins that [isTokenExpired] calls

    [String.prototype.split], [atob], [JSON.parse], property access and
    the [ToNumber] conversion behind [*] are the platform's, not the
    repository's.  They are written out here after their standards
    (ECMA-262, ECMA-404 and the forgiving-base64 decoder of the WHATWG
    Infra standard) so that the check runs on concrete tokens.  A
    finite number is the rational value of an IEEE-754 double: whatever
    is read or computed is rounded to the nearest double, ties to even,
    and overflows to an infinity; [-0] is [0]. *)

Module JS.

Local Open Scope N_scope.

(** A string value is its sequence of UTF-16 code units. *)
Definition jsstring := list N.

Definition units (s : string) : jsstring := map N_of_ascii (list_ascii_of_string s).

Inductive number :=
| NaN
| Infinity (negative : bool)
| Finite (q : Q).

#[warnings="-register-all"]
Inductive JsValue :=
| JUndefined
| JNull
| JBoolean (b : bool)
| JNumber (n : number)
| JString (s : jsstring)
| JArray (elements : list JsValue)
| JObject (properties : list (jsstring * JsValue)).

(** *** Numbers *)

Definition Qsign_neg (q : Q) : bool := (Qnum q <? 0)%Z.

Definition Qis_zero (q : Q) : bool := (Qnum q =? 0)%Z.

(** *** Rounding to a double

    [2 ^ e <= n / d], for positive [n] and [d]. *)
Definition pow2_le (e n d : Z) : bool :=
  if (0 <=? e)%Z then (2 ^ e * d <=? n)%Z else (d <=? n * 2 ^ (- e))%Z.

(** The binary exponent of [n / d]: the largest [e] with
    [2 ^ e <= n / d]. *)
Definition exponentOf (n d : Z) : Z :=
  let e0 := (Z.log2 n - Z.log2 d)%Z in
  if pow2_le e0 n d then e0 else (e0 - 1)%Z.

(** [N / D] to the nearest integer, a tie to the even one. *)
Definition nearestEven (N D : Z) : Z :=
  let k := (N / D)%Z in
  match (2 * (N mod D) ?= D)%Z with
  | Lt => k
  | Gt => (k + 1)%Z
  | Eq => if Z.even k then k else (k + 1)%Z
  end.

(** The double nearest to [n / d], for positive [n] and [d]: a multiple
    of [2 ^ p], where [p] leaves 53 bits to the significand and is at
    least the exponent of the smallest subnormal.  [None] is overflow. *)
Definition roundPositive (n d : Z) : option Q :=
  let p := Z.max (exponentOf n d - 52) (-1074) in
  if (0 <=? p)%Z then
    let v := (nearestEven n (d * 2 ^ p) * 2 ^ p)%Z in
    if (2 ^ 1024 <=? v)%Z then None else Some (inject_Z v)
  else Some (Qred (nearestEven (n * 2 ^ (- p)) d # Z.to_pos (2 ^ (- p)))).

Definition toDouble (q : Q) : number :=
  match Qnum q with
  | Z0 => Finite (inject_Z 0)
  | Zpos n =>
      match roundPositive (Zpos n) (Zpos (Qden q)) with
      | Some r => Finite r
      | None => Infinity false
      end
  | Zneg n =>
      match roundPositive (Zpos n) (Zpos (Qden q)) with
      | Some r => Finite (Qopp r)
      | None => Infinity true
      end
  end.

(** [x * y] *)
Definition mul (x y : number) : number :=
  match x, y with
  | NaN, _ | _, NaN => NaN
  | Infinity a, Infinity b => Infinity (xorb a b)
  | Infinity a, Finite q | Finite q, Infinity a =>
      if Qis_zero q then NaN else Infinity (xorb a (Qsign_neg q))
  | Finite p, Finite q => toDouble (p * q)
  end.

(** [x >= y] *)
Definition ge (x y : number) : bool :=
  match x, y with
  | NaN, _ | _, NaN => false
  | Infinity false, _ => true
  | Infinity true, Infinity true => true
  | Infinity true, _ => false
  | Finite _, Infinity b => b
  | Finite p, Finite q => Qle_bool q p
  end.

(** An integer that is a double as it stands, such as a time value. *)
Definition ofZ (z : Z) : number := Finite (inject_Z z).

Definition pow10 (e : Z) : Q :=
  if (0 <=? e)%Z then inject_Z (10 ^ e) else (1 # Z.to_pos (10 ^ (- e)))%Q.

(** *** Scanning digits *)

Definition digitValue (base c : N) : option N :=
  let d :=
    if (48 <=? c) && (c <=? 57) then Some (c - 48)
    else if (97 <=? c) && (c <=? 102) then Some (c - 87)
    else if (65 <=? c) && (c <=? 70) then Some (c - 55)
    else None in
  match d with
  | Some v => if v <? base then Some v else None
  | None => None
  end.

(** The longest prefix of digits in [base]: its value continued from
    [acc], how many digits were read (added to [count]), and the rest. *)
Fixpoint digits (base : N) (l : jsstring) (acc : Z) (count : nat) : Z * nat * jsstring :=
  match l with
  | c :: r =>
      match digitValue base c with
      | Some v => digits base r (acc * Z.of_N base + Z.of_N v)%Z (S count)
      | None => (acc, count, l)
      end
  | [] => (acc, count, [])
  end.

(** [. DecimalDigits] when present: the digits as an integer, and their
    number.  [required] asks for at least one digit after the point. *)
Definition fraction (required : bool) (l : jsstring) : option (Z * nat * jsstring) :=
  match l with
  | 46 :: r =>
      let '(f, n, r') := digits 10 r 0%Z 0%nat in
      if required && Nat.eqb n 0 then None else Some (f, n, r')
  | _ => Some (0%Z, 0%nat, l)
  end.

(** [ExponentPart] when present. *)
Definition exponent (l : jsstring) : option (Z * jsstring) :=
  match l with
  | c :: r =>
      if (c =? 101) || (c =? 69) then
        let '(neg, r1) :=
          match r with
          | 45 :: r1 => (true, r1)
          | 43 :: r1 => (false, r1)
          | _ => (false, r)
          end in
        let '(e, n, r2) := digits 10 r1 0%Z 0%nat in
        if Nat.eqb n 0 then None else Some (if neg then (- e)%Z else e, r2)
      else Some (0%Z, l)
  | [] => Some (0%Z, l)
  end.

Definition decimal (i : Z) (f : Z) (n : nat) (e : Z) : Q :=
  (inject_Z (i * 10 ^ Z.of_nat n + f) * pow10 (e - Z.of_nat n))%Q.

Definition negate (neg : bool) (q : Q) : Q := if neg then Qopp q else q.

(** *** forgiving-base64 decode, and [atob] *)

Definition isAsciiWhitespace (c : N) : bool :=
  (c =? 9) || (c =? 10) || (c =? 12) || (c =? 13) || (c =? 32).

Definition base64Index (c : N) : option N :=
  if (65 <=? c) && (c <=? 90) then Some (c - 65)
  else if (97 <=? c) && (c <=? 122) then Some (c - 71)
  else if (48 <=? c) && (c <=? 57) then Some (c + 4)
  else if c =? 43 then Some 62
  else if c =? 47 then Some 63
  else None.

(** Remove one or two trailing [=] signs. *)
Definition stripPadding (l : jsstring) : jsstring :=
  match rev l with
  | 61 :: 61 :: r => rev r
  | 61 :: r => rev r
  | _ => l
  end.

Fixpoint sextets (l : jsstring) : option (list N) :=
  match l with
  | [] => Some []
  | c :: r =>
      match base64Index c, sextets r with
      | Some v, Some vs => Some (v :: vs)
      | _, _ => None
      end
  end.

(** Four sextets give three bytes; a rest of three gives two bytes and a
    rest of two gives one, the surplus bits being dropped. *)
Fixpoint decodeGroups (l : list N) : list N :=
  match l with
  | a :: b :: c :: d :: r =>
      let n := a * 262144 + b * 4096 + c * 64 + d in
      (n / 65536) :: ((n / 256) mod 256) :: (n mod 256) :: decodeGroups r
  | [a; b; c] =>
      let n := (a * 4096 + b * 64 + c) / 4 in
      [n / 256; n mod 256]
  | [a; b] => [(a * 64 + b) / 16]
  | _ => []
  end.

Definition forgivingBase64Decode (data : jsstring) : option (list N) :=
  let data := filter (fun c => isAsciiWhitespace c = false) data in
  let data := if (N.of_nat (length data) mod 4 =? 0) then stripPadding data else data in
  if N.of_nat (length data) mod 4 =? 1 then None
  else decodeGroups <$> sextets data.

(** [atob(data)]: [None] is the [InvalidCharacterError]. *)
Definition atob (data : jsstring) : option jsstring := forgivingBase64Decode data.

(** *** [String.prototype.split] with a one-character separator *)

Fixpoint splitFrom (sep : N) (l : jsstring) (current : jsstring) : list jsstring :=
  match l with
  | [] => [rev current]
  | c :: r =>
      if c =? sep then rev current :: splitFrom sep r []
      else splitFrom sep r (c :: current)
  end.

Definition split (s : jsstring) (sep : N) : list jsstring := splitFrom sep s [].

(** *** [JSON.parse] *)

Definition isJsonWhitespace (c : N) : bool :=
  (c =? 9) || (c =? 10) || (c =? 13) || (c =? 32).

Fixpoint skipWs (l : jsstring) : jsstring :=
  match l with
  | c :: r => if isJsonWhitespace c then skipWs r else l
  | [] => []
  end.

Fixpoint stripPrefix (p l : jsstring) : option jsstring :=
  match p, l with
  | [], _ => Some l
  | a :: p', b :: l' => if a =? b then stripPrefix p' l' else None
  | _ :: _, [] => None
  end.

Definition hex4 (a b c d : N) : option N :=
  match digitValue 16 a, digitValue 16 b, digitValue 16 c, digitValue 16 d with
  | Some x, Some y, Some z, Some w => Some (x * 4096 + y * 256 + z * 16 + w)
  | _, _, _, _ => None
  end.

Definition escape (e : N) : option N :=
  if e =? 34 then Some 34
  else if e =? 92 then Some 92
  else if e =? 47 then Some 47
  else if e =? 98 then Some 8
  else if e =? 102 then Some 12
  else if e =? 110 then Some 10
  else if e =? 114 then Some 13
  else if e =? 116 then Some 9
  else None.

(** The characters of a string literal after its opening quote. *)
Fixpoint parseString (l : jsstring) (acc : jsstring) : option (jsstring * jsstring) :=
  match l with
  | [] => None
  | c :: r =>
      if c =? 34 then Some (rev acc, r)
      else if c =? 92 then
        match r with
        | [] => None
        | e :: r1 =>
            if e =? 117 then
              match r1 with
              | h1 :: h2 :: h3 :: h4 :: r2 =>
                  match hex4 h1 h2 h3 h4 with
                  | Some v => parseString r2 (v :: acc)
                  | None => None
                  end
              | _ => None
              end
            else
              match escape e with
              | Some v => parseString r1 (v :: acc)
              | None => None
              end
        end
      else if c <? 32 then None
      else parseString r (c :: acc)
  end.

(** A JSON number: [-? int frac? exp?], no leading zeros; the value of
    the literal, before it is rounded. *)
Definition parseNumber (l : jsstring) : option (Q * jsstring) :=
  let '(neg, l1) := match l with 45 :: r => (true, r) | _ => (false, l) end in
  let int :=
    match l1 with
    | 48 :: r => Some (0%Z, r)
    | c :: _ =>
        if (49 <=? c) && (c <=? 57) then
          let '(i, _, r) := digits 10 l1 0%Z 0%nat in Some (i, r)
        else None
    | [] => None
    end in
  '(i, r1) ← int;
  '(f, n, r2) ← fraction true r1;
  '(e, r3) ← exponent r2;
  Some (negate neg (decimal i f n e), r3).

Fixpoint parseValue (fuel : nat) (l : jsstring) : option (JsValue * jsstring) :=
  match fuel with
  | O => None
  | S fuel' =>
      match skipWs l with
      | [] => None
      | c :: r =>
          if c =? 123 then
            match skipWs r with
            | 125 :: r' => Some (JObject [], r')
            | r' => parseMembers fuel' r' []
            end
          else if c =? 91 then
            match skipWs r with
            | 93 :: r' => Some (JArray [], r')
            | r' => parseElements fuel' r' []
            end
          else if c =? 34 then
            '(s, r') ← parseString r []; Some (JString s, r')
          else if c =? 116 then
            r' ← stripPrefix (units "rue") r; Some (JBoolean true, r')
          else if c =? 102 then
            r' ← stripPrefix (units "alse") r; Some (JBoolean false, r')
          else if c =? 110 then
            r' ← stripPrefix (units "ull") r; Some (JNull, r')
          else
            '(q, r') ← parseNumber (c :: r); Some (JNumber (toDouble q), r')
      end
  end
with parseElements (fuel : nat) (l : jsstring) (acc : list JsValue)
  : option (JsValue * jsstring) :=
  match fuel with
  | O => None
  | S fuel' =>
      '(v, r) ← parseValue fuel' l;
      match skipWs r with
      | 44 :: r' => parseElements fuel' r' (v :: acc)
      | 93 :: r' => Some (JArray (rev (v :: acc)), r')
      | _ => None
      end
  end
with parseMembers (fuel : nat) (l : jsstring) (acc : list (jsstring * JsValue))
  : option (JsValue * jsstring) :=
  match fuel with
  | O => None
  | S fuel' =>
      match skipWs l with
      | 34 :: r =>
          '(k, r1) ← parseString r [];
          match skipWs r1 with
          | 58 :: r2 =>
              '(v, r3) ← parseValue fuel' r2;
              match skipWs r3 with
              | 44 :: r4 => parseMembers fuel' r4 ((k, v) :: acc)
              | 125 :: r4 => Some (JObject (rev ((k, v) :: acc)), r4)
              | _ => None
              end
          | _ => None
          end
      | _ => None
      end
  end.

(** [JSON.parse(text)]: [None] is the [SyntaxError].  Every recursive
    call but one in two reads a character first, so twice the length of
    the text is fuel enough. *)
Definition JSON_parse (text : jsstring) : option JsValue :=
  '(v, r) ← parseValue (2 * length text + 2) text;
  match skipWs r with
  | [] => Some v
  | _ => None
  end.

(** *** Property access and [ToNumber] *)

(** The own property [name] of an object created by [JSON.parse]: the
    last member of that name wins. *)
Definition ownProperty (properties : list (jsstring * JsValue)) (name : jsstring)
  : JsValue :=
  fold_left
    (fun found member =>
       if bool_decide (fst member = name) then snd member else found)
    properties JUndefined.

(** [v.name] for a [name] that no prototype defines (such as [exp]):
    [None] is the [TypeError] of reading a property of [null] or
    [undefined]. *)
Definition getMember (v : JsValue) (name : jsstring) : option JsValue :=
  match v with
  | JUndefined | JNull => None
  | JObject properties => Some (ownProperty properties name)
  | _ => Some JUndefined
  end.

Definition isStrWhiteSpace (c : N) : bool :=
  ((9 <=? c) && (c <=? 13)) || (c =? 32) || (c =? 160) || (c =? 5760)
  || ((8192 <=? c) && (c <=? 8202)) || (c =? 8232) || (c =? 8233)
  || (c =? 8239) || (c =? 8287) || (c =? 12288) || (c =? 65279).

Fixpoint trimStart (l : jsstring) : jsstring :=
  match l with
  | c :: r => if isStrWhiteSpace c then trimStart r else l
  | [] => []
  end.

Definition trim (l : jsstring) : jsstring := rev (trimStart (rev (trimStart l))).

(** All of [l] as digits in [base], at least one. *)
Definition allDigits (base : N) (l : jsstring) : number :=
  match digits base l 0%Z 0%nat with
  | (v, S _, []) => toDouble (inject_Z v)
  | _ => NaN
  end.

(** [StrUnsignedDecimalLiteral], which must end the string. *)
Definition unsignedDecimal (l : jsstring) : option Q :=
  let '(i, ni, r1) := digits 10 l 0%Z 0%nat in
  '(f, nf, r2) ← fraction false r1;
  if Nat.eqb ni 0 && Nat.eqb nf 0 then None
  else
    '(e, r3) ← exponent r2;
    match r3 with
    | [] => Some (decimal i f nf e)
    | _ => None
    end.

Definition signedDecimal (l : jsstring) : number :=
  let '(neg, l1) :=
    match l with
    | 45 :: r => (true, r)
    | 43 :: r => (false, r)
    | _ => (false, l)
    end in
  if bool_decide (l1 = units "Infinity") then Infinity neg
  else
    match unsignedDecimal l1 with
    | Some q => toDouble (negate neg q)
    | None => NaN
    end.

(** [StringToNumber] *)
Definition StringToNumber (s : jsstring) : number :=
  match trim s with
  | [] => ofZ 0
  | 48 :: c :: r =>
      if (c =? 120) || (c =? 88) then allDigits 16 r
      else if (c =? 111) || (c =? 79) then allDigits 8 r
      else if (c =? 98) || (c =? 66) then allDigits 2 r
      else signedDecimal (48 :: c :: r)
  | l => signedDecimal l
  end.

(** [StringToNumber(ToString(v))] for an array or one of its elements.
    An array prints as its elements joined by commas, [null] and
    [undefined] elements as the empty string: the empty array gives the
    empty string, a single element its own string, and no numeric
    literal holds a comma.  A number printed and read back is the same
    number; a plain object prints as [[object Object]]. *)
Fixpoint viaString (v : JsValue) : number :=
  match v with
  | JUndefined | JNull => ofZ 0
  | JBoolean _ => NaN
  | JNumber n => n
  | JString s => StringToNumber s
  | JArray [] => ofZ 0
  | JArray [e] => viaString e
  | JArray (_ :: _ :: _) => NaN
  | JObject _ => NaN
  end.

Definition ToNumber (v : JsValue) : number :=
  match v with
  | JUndefined => NaN
  | JNull => ofZ 0
  | JBoolean b => ofZ (if b then 1 else 0)
  | JNumber n => n
  | JString s => StringToNumber s
  | JArray elements => viaString (JArray elements)
  | JObject _ => NaN
  end.

End JS.

(** ** TokenStore: src/utilities/tokenStorage.ts *)

Module TokenStorage.

Inductive StorageKey := ACCESS_TOKEN | REFRESH_TOKEN | USER_DATA.

(** The string value of each enum member. *)
Definition key (k : StorageKey) : string :=
  match k with
  | ACCESS_TOKEN => "ACCESS_TOKEN"
  | REFRESH_TOKEN => "REFRESH_TOKEN"
  | USER_DATA => "USER_DATA"
  end.

(** [localStorage]: [getItem] is lookup ([None] is JavaScript's [null]),
    [setItem] is insertion, [removeItem] is deletion. *)
Abbreviation Storage := (gmap string string).

Definition saveTokens (accessToken refreshToken : string) (ls : Storage) : Storage :=
  <[key REFRESH_TOKEN := refreshToken]> (<[key ACCESS_TOKEN := accessToken]> ls).

Definition getAccessToken (ls : Storage) : option string := ls !! key ACCESS_TOKEN.

Definition getRefreshToken (ls : Storage) : option string := ls !! key REFRESH_TOKEN.

Definition clearTokens (ls : Storage) : Storage :=
  delete (key USER_DATA) (delete (key REFRESH_TOKEN) (delete (key ACCESS_TOKEN) ls)).

(** [isTokenExpired(token)], with the reading of [Date.now()] as the
    second argument.  [None] inside is an exception caught by the
    [catch] clause. *)
Definition isTokenExpired (token : string) (now : Z) : bool :=
  let attempt :=
    let segment := default (JS.units "undefined") (JS.split (JS.units token) 46 !! 1%nat) in
    text ← JS.atob segment;
    payload ← JS.JSON_parse text;
    claim ← JS.getMember payload (JS.units "exp");
    let exp := JS.mul (JS.ToNumber claim) (JS.ofZ 1000) in
    Some (JS.ge (JS.ofZ now) exp) in
  match attempt with
  | Some expired => expired
  | None => true
  end.

End TokenStorage.

(** ** CredentialInjector: apollo/authLink.ts (unnamed/part_005) *)

Module AuthLink.

Import TokenStorage.

Inductive GraphQLErrorCode := UNAUTHENTICATED | FORBIDDEN | BAD_USER_INPUT | INTERNAL_SERVER_ERROR.

Definition code (c : GraphQLErrorCode) : string :=
  match c with
  | UNAUTHENTICATED => "UNAUTHENTICATED"
  | FORBIDDEN => "FORBIDDEN"
  | BAD_USER_INPUT => "BAD_USER_INPUT"
  | INTERNAL_SERVER_ERROR => "INTERNAL_SERVER_ERROR"
  end.

(** JavaScript truthiness of a [string | null]: [null] and the empty
    string are falsy, every other string is truthy. *)
Definition truthy (s : option string) : bool :=
  match s with
  | Some s => negb (String.eqb s EmptyString)
  | None => false
  end.

(** [authLink]: the context setter.  [headers] are the headers of the
    previous context (the empty map when there are none); the result is
    the [headers] field of the returned context. *)
Definition authLink (ls : Storage) (headers : gmap string string) : gmap string string :=
  let token := getAccessToken ls in
  let typedHeaders := headers in
  match token with
  | Some t =>
      if truthy token then <["authorization" := "Bearer " +:+ t]> typedHeaders
      else typedHeaders
  | None => typedHeaders
  end.

End AuthLink.

(** ** The world the session code runs in *)

Module Runtime.

Import AuthSlice TokenStorage.

Record LoginCredentials := mkCredentials {
  cred_email : string;
  cred_password : string
}.

Record RegisterData := mkRegisterData {
  reg_email : string;
  reg_password : string;
  reg_name : string
}.

(** The GraphQL documents of src/graphql/operations.ts that the thunks
    send, with their variables. *)
Inductive Operation :=
| LOGIN_MUTATION (variables : LoginCredentials)
| REGISTER_MUTATION (variables : RegisterData)
| LOGOUT_MUTATION
| ME_QUERY.

(** The selection [{ accessToken, user }] of the login and register
    mutations. *)
Record AuthPayload := mkAuthPayload {
  payload_user : User;
  payload_accessToken : string
}.

(** A GraphQL error as the client sees it: its message and the value of
    [extensions?.code] ([None] when there is no such string). *)
Record GraphQLError := mkGraphQLError {
  gql_message : string;
  gql_code : option string
}.

Record Request := mkRequest {
  req_operation : Operation;
  req_headers : gmap string string
}.

Inductive ConsoleEntry :=
| GraphQLErrorLine (e : GraphQLError)
| NetworkErrorLine (networkError : string)
| LogoutFailedLine (message : string).

Record World := mkWorld {
  localStorage : Storage;
  auth : AuthState;
  network : list Request;
  console : list ConsoleEntry
}.

(** A thrown JavaScript error, as far as the code looks at it: its
    [message]. *)
Record JsError := mkJsError { js_message : string }.

Inductive Completion (A : Type) :=
| Normal (a : A)
| Throw (e : JsError).

Arguments Normal {A} a.
Arguments Throw {A} e.

(** Programs over the world that may throw. *)
Definition M (A : Type) : Type := World -> Completion A * World.

Definition ret {A} (a : A) : M A := fun w => (Normal a, w).

Definition throw {A} (e : JsError) : M A := fun w => (Throw e, w).

Definition bind {A B} (m : M A) (k : A -> M B) : M B :=
  fun w =>
    match m w with
    | (Normal a, w') => k a w'
    | (Throw e, w') => (Throw e, w')
    end.

Definition try_catch {A} (body : M A) (handler : JsError -> M A) : M A :=
  fun w =>
    match body w with
    | (Normal a, w') => (Normal a, w')
    | (Throw e, w') => handler e w'
    end.

Declare Scope thunk_scope.
Delimit Scope thunk_scope with thunk.
Notation "x <- m ;; k" := (bind m (fun x => k))
  (at level 100, m at next level, right associativity) : thunk_scope.
Notation "m ;; k" := (bind m (fun _ => k))
  (at level 100, right associativity) : thunk_scope.

(** [store.dispatch(action)] *)
Definition dispatch (action : Action) : M unit :=
  fun w =>
    (Normal tt,
     {| localStorage := localStorage w;
        auth := reducer (auth w) action;
        network := network w;
        console := console w |}).

(** A function of tokenStorage.ts applied to the browser's storage. *)
Definition onStorage (f : Storage -> Storage) : M unit :=
  fun w =>
    (Normal tt,
     {| localStorage := f (localStorage w);
        auth := auth w;
        network := network w;
        console := console w |}).

Definition readStorage {A} (f : Storage -> A) : M A :=
  fun w => (Normal (f (localStorage w)), w).

Definition console_error (line : ConsoleEntry) : M unit :=
  fun w =>
    (Normal tt,
     {| localStorage := localStorage w;
        auth := auth w;
        network := network w;
        console := console w ++ [line] |}).

Definition send (r : Request) : M unit :=
  fun w =>
    (Normal tt,
     {| localStorage := localStorage w;
        auth := auth w;
        network := network w ++ [r];
        console := console w |}).

Fixpoint forEach {A} (l : list A) (f : A -> M unit) : M unit :=
  match l with
  | [] => ret tt
  | x :: l' => bind (f x) (fun _ => forEach l' f)
  end.

(** The message of the [TypeError] raised by reading property [p] of
    a missing [data] ([null]); the text is the engine's and nothing
    depends on it. *)
Definition typeError (p : string) : JsError :=
  {| js_message := "Cannot read properties of null (reading '" +:+ p +:+ "')" |}.

(** [e || fallback] on strings. *)
Definition orElse (s fallback : string) : string :=
  if String.eqb s EmptyString then fallback else s.

End Runtime.

(** ** FailureInterceptor: apollo/errorLink.ts (unnamed/part_007) *)

Module ErrorLink.

Import AuthSlice TokenStorage Runtime.
Local Open Scope thunk_scope.

Definition isAuthError (errors : list GraphQLError) : bool :=
  existsb
    (fun error =>
       bool_decide (gql_code error = Some (AuthLink.code AuthLink.UNAUTHENTICATED))
       || bool_decide (gql_code error = Some (AuthLink.code AuthLink.FORBIDDEN)))
    errors.

(** The argument of the [onError] handler: [graphQLErrors] and
    [networkError], each possibly undefined. *)
Record ErrorResponse := mkErrorResponse {
  graphQLErrors : option (list GraphQLError);
  networkError : option string
}.

Definition errorLink (r : ErrorResponse) : M unit :=
  match graphQLErrors r with
  | Some errors =>
      (if isAuthError errors
       then (onStorage clearTokens ;; dispatch ClearAuth)
       else ret tt) ;;
      forEach errors (fun e => console_error (GraphQLErrorLine e))
  | None => ret tt
  end ;;
  match networkError r with
  | Some e => console_error (NetworkErrorLine e)
  | None => ret tt
  end.

End ErrorLink.

(** ** The Apollo client: apollo/client.ts (unnamed/part_006)

    [from([errorLink, authLink, httpLink])].  The library and the server
    are not part of the repository, so one round trip is described by an
    [Exchange]: with what the library calls the [onError] handler (if it
    calls it), and how the promise of [mutate] or [query] settles.  The
    model puts no constraint between the two. *)

Module Client.

Import AuthSlice TokenStorage Runtime ErrorLink.
Local Open Scope thunk_scope.

Inductive Settled (D : Type) :=
| Resolved (data : option D) (errors : list GraphQLError)
| Rejected (error : JsError).

Arguments Resolved {D} data errors.
Arguments Rejected {D} error.

Record Exchange (D : Type) := mkExchange {
  link_error : option ErrorResponse;
  settled : Settled D
}.

Arguments mkExchange {D} link_error settled.
Arguments link_error {D} e.
Arguments settled {D} e.

(** One operation through the link chain: the auth link reads the token
    store and the request leaves; on the way back the error link sees the
    response before the caller does. *)
Definition execute {D} (op : Operation) (ex : Exchange D)
  : M (option D * list GraphQLError) :=
  headers <- readStorage (fun ls => AuthLink.authLink ls ∅) ;;
  send {| req_operation := op; req_headers := headers |} ;;
  match link_error ex with
  | Some r => errorLink r
  | None => ret tt
  end ;;
  match settled ex with
  | Resolved data errors => ret (data, errors)
  | Rejected e => throw e
  end.

Definition mutate {D} := @execute D.

Definition query {D} := @execute D.

(** [new ApolloClient({ link, cache })] sets no [defaultOptions], so
    every call runs under the library's default error policy, [none]:
    a response that carries GraphQL errors rejects the promise, and a
    promise that resolves holds no error. *)
Definition defaultErrorPolicy {D} (ex : Exchange D) : Prop :=
  match settled ex with
  | Resolved _ errors => errors = []
  | Rejected _ => True
  end.

End Client.

(** ** SessionActions: src/redux/thunks/authThunks.ts *)

Module AuthThunks.

Import AuthSlice TokenStorage Runtime ErrorLink Client.
Local Open Scope thunk_scope.

(** What a thunk's payload creator returns: a value, or
    [rejectWithValue(message)].  The lifecycle actions that
    [createAsyncThunk] dispatches around the payload creator match no
    case reducer of the slice, so they leave its state as it is and are
    not written out. *)
Inductive ThunkResult (A : Type) :=
| Fulfilled (a : A)
| RejectWithValue (message : string).

Arguments Fulfilled {A} a.
Arguments RejectWithValue {A} message.

(** [data.login], [data.register], [data.me]: a [TypeError] when [data]
    is missing. *)
Definition field {D} (data : option D) (p : string) : M D :=
  match data with
  | Some d => ret d
  | None => throw (typeError p)
  end.

Definition loginUser (credentials : LoginCredentials) (ex : Exchange AuthPayload)
  : M (ThunkResult User) :=
  try_catch
    (dispatch (SetStatus LOADING) ;;
     r <- mutate (LOGIN_MUTATION credentials) ex ;;
     match snd r with
     | e :: _ =>
         let errorMessage := gql_message e in
         dispatch (SetError {| error_type := INVALID_CREDENTIALS;
                               error_message := errorMessage |}) ;;
         ret (RejectWithValue errorMessage)
     | [] =>
         login <- field (fst r) "login" ;;
         onStorage (saveTokens (payload_accessToken login) EmptyString) ;;
         dispatch (SetTokens (payload_accessToken login, EmptyString)) ;;
         dispatch (SetUser (payload_user login)) ;;
         ret (Fulfilled (payload_user login))
     end)
    (fun error =>
       let errorMessage := orElse (js_message error) "Login failed" in
       dispatch (SetError {| error_type := NETWORK_ERROR;
                             error_message := errorMessage |}) ;;
       ret (RejectWithValue errorMessage)).

Definition registerUser (registerData : RegisterData) (ex : Exchange AuthPayload)
  : M (ThunkResult User) :=
  try_catch
    (dispatch (SetStatus LOADING) ;;
     r <- mutate (REGISTER_MUTATION registerData) ex ;;
     match snd r with
     | e :: _ =>
         let errorMessage := gql_message e in
         dispatch (SetError {| error_type := INVALID_CREDENTIALS;
                               error_message := errorMessage |}) ;;
         ret (RejectWithValue errorMessage)
     | [] =>
         register <- field (fst r) "register" ;;
         dispatch (SetStatus UNAUTHENTICATED) ;;
         ret (Fulfilled (payload_user register))
     end)
    (fun error =>
       let errorMessage := orElse (js_message error) "Registration failed" in
       dispatch (SetError {| error_type := NETWORK_ERROR;
                             error_message := errorMessage |}) ;;
       ret (RejectWithValue errorMessage)).

Definition logoutUser (ex : Exchange unit) : M unit :=
  try_catch
    (mutate LOGOUT_MUTATION ex ;; ret tt)
    (fun error => console_error (LogoutFailedLine (js_message error))) ;;
  onStorage clearTokens ;;
  dispatch ClearAuth.

Definition initializeAuth (ex : Exchange User) : M (option User) :=
  token <- readStorage getAccessToken ;;
  match token with
  | Some t =>
      if AuthLink.truthy token then
        dispatch (SetTokens (t, EmptyString)) ;;
        try_catch
          (r <- query ME_QUERY ex ;;
           me <- field (fst r) "me" ;;
           dispatch (SetUser me) ;;
           ret (Some me))
          (fun _ =>
             onStorage clearTokens ;;
             dispatch ClearAuth ;;
             ret None)
      else
        dispatch (SetStatus UNAUTHENTICATED) ;; ret None
  | None =>
      dispatch (SetStatus UNAUTHENTICATED) ;; ret None
  end.

End AuthThunks.

(** ** Properties stated about the session code *)

Module Properties.

Import AuthSlice TokenStorage Runtime ErrorLink Client AuthThunks.

(** An error is unresolved while the status is [ERROR]. *)
Definition unresolvedError (s : AuthState) : Prop := status s = ERROR.

(** The session invariant of the data model: the status is
    [AUTHENTICATED] iff there is a user and no unresolved error. *)
Definition sessionInvariant (s : AuthState) : Prop :=
  status s = AUTHENTICATED <-> (user s <> None /\ ~ unresolvedError s).

(** The actions that keep the invariant on state [s]: every action but
    [setStatus], and [setStatus(p)] when [p] fits the user field. *)
Definition statusAdmissible (s : AuthState) (a : Action) : Prop :=
  match a with
  | SetStatus p => p = ERROR \/ (p = AUTHENTICATED <-> user s <> None)
  | _ => True
  end.

(** The world a program leaves behind, and how it completes. *)
Definition final {A} (m : M A) (w : World) : World := snd (m w).

Definition outcome {A} (m : M A) (w : World) : Completion A := fst (m w).

(** All three slots of the token store are empty. *)
Definition slotsCleared (ls : Storage) : Prop :=
  forall k : StorageKey, ls !! key k = None.

(** The session state after [clearAuth]. *)
Definition signedOut : AuthState :=
  {| user := None; accessToken := None; refreshToken := None;
     status := UNAUTHENTICATED; error := None |}.

(** The structured error list of a response holds an error whose code
    is [UNAUTHENTICATED] or [FORBIDDEN]. *)
Definition carriesAuthCode (r : ErrorResponse) : Prop :=
  exists errors e,
    graphQLErrors r = Some errors /\ In e errors /\
    (gql_code e = Some "UNAUTHENTICATED" \/ gql_code e = Some "FORBIDDEN").

(** The error link is triggered during the exchange: the response it
    sees carries an error of code [UNAUTHENTICATED] or [FORBIDDEN]. *)
Definition tearsDown {D} (ex : Exchange D) : bool :=
  match link_error ex with
  | Some r =>
      match graphQLErrors r with
      | Some errors => isAuthError errors
      | None => false
      end
  | None => false
  end.

(** What the exchange leaves in the world: the request sent with the
    headers of the auth link, the teardown of the error link when it
    is triggered, and the lines the error link logs. *)
Definition loggedLines {D} (ex : Exchange D) : list ConsoleEntry :=
  match link_error ex with
  | Some r =>
      map GraphQLErrorLine (default [] (graphQLErrors r))
      ++ match networkError r with
         | Some e => [NetworkErrorLine e]
         | None => []
         end
  | None => []
  end.

Definition afterExchange {D} (op : Operation) (ex : Exchange D) (w : World) : World :=
  {| localStorage :=
       if tearsDown ex then clearTokens (localStorage w) else localStorage w;
     auth := if tearsDown ex then clearAuth (auth w) else auth w;
     network :=
       network w ++ [{| req_operation := op;
                        req_headers := AuthLink.authLink (localStorage w) ∅ |}];
     console := console w ++ loggedLines ex |}.

(** The remote call succeeds: no error reaches the error link and the
    promise resolves with data and no errors. *)
Definition succeeds {D} (ex : Exchange D) (d : D) : Prop :=
  link_error ex = None /\ settled ex = Resolved (Some d) [].

(** A new login or register attempt. *)
Inductive Attempt :=
| LoginAttempt (credentials : LoginCredentials)
| RegisterAttempt (registerData : RegisterData).

Definition attempt (a : Attempt) (ex : Exchange AuthPayload) : M (ThunkResult User) :=
  match a with
  | LoginAttempt credentials => loginUser credentials ex
  | RegisterAttempt registerData => registerUser registerData ex
  end.

(** The payload segment of a token as the code takes it (the second
    piece between dots; a missing piece is [undefined], which [atob]
    reads as that word), its decoding, and the expiry claim read from
    it.  [None] is a failure: an exception in the source. *)
Definition payloadSegment (token : string) : JS.jsstring :=
  default (JS.units "undefined") (JS.split (JS.units token) 46 !! 1%nat).

Definition decodePayload (token : string) : option JS.JsValue :=
  text ← JS.atob (payloadSegment token); JS.JSON_parse text.

Definition expiryClaim (token : string) : option JS.JsValue :=
  payload ← decodePayload token; JS.getMember payload (JS.units "exp").

(** A JSON value other than [null] with no member named [exp]. *)
Definition lacksExp (payload : JS.JsValue) : Prop :=
  match payload with
  | JS.JUndefined | JS.JNull => False
  | JS.JObject properties => forall v, ~ In (JS.units "exp", v) properties
  | _ => True
  end.

(** The [authorization] header carries the bearer credential [t]. *)
Definition bearer (t : string) : string := "Bearer " +:+ t.

End Properties.

(** ** Sample data for the concrete runs *)

Module Scenario.

Import AuthSlice TokenStorage Runtime ErrorLink Client.

Definition alice : User :=
  {| user_id := 1; user_email := "a@x.com"; user_name := "A";
     user_status := "ACTIVE"; user_createdAt := "2024-05-01T09:00:00.000Z" |}.

Definition credentials : LoginCredentials :=
  {| cred_email := "a@x.com"; cred_password := "pw123456" |}.

Definition registration : RegisterData :=
  {| reg_email := "b@x.com"; reg_password := "pw654321"; reg_name := "B" |}.

(** The world at process start. *)
Definition freshWorld : World :=
  {| localStorage := ∅; auth := initialState; network := []; console := [] |}.

(** The world after alice has logged in. *)
Definition signedInWorld : World :=
  {| localStorage := saveTokens "token-1" EmptyString ∅;
     auth := {| user := Some alice; accessToken := Some "token-1";
                refreshToken := Some EmptyString; status := AUTHENTICATED;
                error := None |};
     network := [];
     console := [] |}.

(** A server that answers a wrong password with the code
    [UNAUTHENTICATED], and one that answers it with [BAD_USER_INPUT]. *)
Definition wrongPassword : GraphQLError :=
  {| gql_message := "Invalid email or password";
     gql_code := Some "UNAUTHENTICATED" |}.

Definition badInput : GraphQLError :=
  {| gql_message := "Invalid email or password";
     gql_code := Some "BAD_USER_INPUT" |}.

(** The response carries the GraphQL error [e]: the error link sees it,
    and the promise rejects with the error's message. *)
Definition refusedThrowing {D} (e : GraphQLError) : Exchange D :=
  {| link_error := Some {| graphQLErrors := Some [e]; networkError := None |};
     settled := Rejected {| js_message := gql_message e |} |}.

(** The server cannot be reached. *)
Definition offline {D} : Exchange D :=
  {| link_error := Some {| graphQLErrors := None;
                           networkError := Some "TypeError: Failed to fetch" |};
     settled := Rejected {| js_message := "Failed to fetch" |} |}.

(** The server answers with data and no error. *)
Definition answered {D} (d : D) : Exchange D :=
  {| link_error := None; settled := Resolved (Some d) [] |}.

Definition created : AuthPayload :=
  {| payload_user :=
       {| user_id := 2; user_email := "b@x.com"; user_name := "B";
          user_status := "PENDING"; user_createdAt := "2024-05-02T10:00:00.000Z" |};
     payload_accessToken := "token-2" |}.

(** Tokens [header.payload.signature]; the payloads are, in order,
    an object with [exp] 1700000000, an object with only [sub], the
    value [null], an object whose [exp] is [null], an object whose
    [exp] is the string 1700000000, and a string that is no token. *)
Definition jwtHeader : string := "eyJhbGciOiJIUzI1NiIsInR5cCI6IkpXVCJ9".

Definition tokenWithExp : string := jwtHeader +:+ ".eyJleHAiOjE3MDAwMDAwMDB9.c2ln".

Definition tokenWithoutExp : string := jwtHeader +:+ ".eyJzdWIiOiIxIn0.c2ln".

Definition tokenNull : string := jwtHeader +:+ ".bnVsbA.c2ln".

Definition tokenExpNull : string := jwtHeader +:+ ".eyJleHAiOm51bGx9.c2ln".

Definition tokenExpString : string := jwtHeader +:+ ".eyJleHAiOiIxNzAwMDAwMDAwIn0.c2ln".

Definition noToken : string := "not a token".

(** Strings that are no tokens although their second segment decodes:
    two segments with the payload [1], and the payload [{}] between two
    segments that are not base64. *)
Definition twoSegments : string := "a.MQ".

Definition strangeSegments : string := "!!!.e30.???".

(** A token whose [exp] is written 1700000000.0000001. *)
Definition tokenFractionalExp : string :=
  jwtHeader +:+ ".eyJleHAiOjE3MDAwMDAwMDAuMDAwMDAwMX0.c2ln".

End Scenario.

(** ** The components that read and drive the session

    [ProtectedRoute] (components/auth/ProtectedRoute.tsx, unnamed/part_003),
    [Navbar] (src/components/layouts/Navbar.tsx) and the submit handlers
    of the register and login forms (src/components/auth/Register.tsx,
    Login.tsx).  A component is the function from the selected state to
    what it renders; a handler runs on the form's state and the world
    and yields the form's state after it, the navigation it asked for
    and what it handed to [console.error]. *)

Module Components.

Import AuthSlice TokenStorage Runtime ErrorLink Client AuthThunks.

Inductive RouteView :=
| Spinner
| NavigateTo (to : string)
| Children.

Definition ProtectedRoute (state : AuthState) : RouteView :=
  let isAuthenticated := selectIsAuthenticated state in
  let authStatus := selectAuthStatus state in
  if bool_decide (authStatus = IDLE) || bool_decide (authStatus = LOADING)
  then Spinner
  else if negb isAuthenticated then NavigateTo "/login"
  else Children.

(** The right-hand side of the navigation bar: the greeting with
    [currentUser?.name] and the logout button, or the login and register
    links. *)
Inductive NavbarView :=
| WelcomeLogout (name : option string)
| LoginRegister.

Definition Navbar (state : AuthState) : NavbarView :=
  let isAuthenticated := selectIsAuthenticated state in
  let currentUser := selectCurrentUser state in
  if isAuthenticated then WelcomeLogout (user_name <$> currentUser)
  else LoginRegister.

Definition handleLogout (ex : Exchange unit) : M unit := logoutUser ex.

(** [navigate(to, { state: { message } })] *)
Record Navigation := mkNavigation {
  nav_to : string;
  nav_message : option string
}.

Record Handled (S : Type) := mkHandled {
  form : S;
  navigated : option Navigation;
  reported : option string
}.

Arguments mkHandled {S} form navigated reported.
Arguments form {S} h.
Arguments navigated {S} h.
Arguments reported {S} h.

(** [await dispatch(thunk).unwrap()]: the fulfilled value is returned,
    the value given to [rejectWithValue] is thrown as it is (a string
    here), and an error thrown by the payload creator is thrown as an
    error object with its message. *)
Inductive Unwrapped (A : Type) :=
| Returned (a : A)
| ThrownValue (value : string)
| ThrownError (e : JsError).

Arguments Returned {A} a.
Arguments ThrownValue {A} value.
Arguments ThrownError {A} e.

Definition unwrap {A} (c : Completion (ThunkResult A)) : Unwrapped A :=
  match c with
  | Normal (Fulfilled a) => Returned a
  | Normal (RejectWithValue message) => ThrownValue message
  | Throw e => ThrownError e
  end.

(** [!s] on a string. *)
Definition isEmpty (s : string) : bool := String.eqb s EmptyString.

(** [s.includes(part)] *)
Fixpoint includes (s part : string) : bool :=
  String.prefix part s
  || match s with
     | EmptyString => false
     | String _ rest => includes rest part
     end.

(** *** Register.tsx *)

Record RegisterForm := mkRegisterForm {
  rf_email : string;
  rf_password : string;
  rf_name : string;
  rf_showPassword : bool;
  rf_validationError : string
}.

Definition rf_setValidationError (f : RegisterForm) (message : string) : RegisterForm :=
  {| rf_email := rf_email f; rf_password := rf_password f; rf_name := rf_name f;
     rf_showPassword := rf_showPassword f; rf_validationError := message |}.

Definition registrationMessage : string :=
  "Registration successful! Please check your email and verify your account before logging in.".

Definition Register_handleSubmit (f : RegisterForm) (ex : Exchange AuthPayload)
  : World -> Handled RegisterForm * World :=
  fun w =>
    let f := rf_setValidationError f EmptyString in
    if isEmpty (rf_email f) || isEmpty (rf_password f) || isEmpty (rf_name f) then
      ({| form := rf_setValidationError f "All fields are required";
          navigated := None; reported := None |}, w)
    else if (String.length (rf_password f) <? 6)%nat then
      ({| form := rf_setValidationError f "Password must be at least 6 characters";
          navigated := None; reported := None |}, w)
    else
      let '(c, w') :=
        registerUser {| reg_email := rf_email f; reg_password := rf_password f;
                        reg_name := rf_name f |} ex w in
      match unwrap c with
      | Returned _ =>
          ({| form := f;
              navigated := Some {| nav_to := "/login";
                                   nav_message := Some registrationMessage |};
              reported := None |}, w')
      | ThrownValue value =>
          ({| form := f; navigated := None; reported := Some value |}, w')
      | ThrownError e =>
          ({| form := f; navigated := None; reported := Some (js_message e) |}, w')
      end.

Definition Register_handleClickShowPassword (f : RegisterForm) : RegisterForm :=
  {| rf_email := rf_email f; rf_password := rf_password f; rf_name := rf_name f;
     rf_showPassword := negb (rf_showPassword f);
     rf_validationError := rf_validationError f |}.

(** *** Login.tsx *)

Record LoginForm := mkLoginForm {
  lf_email : string;
  lf_password : string;
  lf_showPassword : bool;
  lf_validationError : string;
  lf_isEmailNotVerified : bool;
  lf_resendSuccess : bool
}.

Definition Login_handleSubmit (f : LoginForm) (ex : Exchange AuthPayload)
  : World -> Handled LoginForm * World :=
  fun w =>
    let cleared (message : string) (notVerified : bool) :=
      {| lf_email := lf_email f; lf_password := lf_password f;
         lf_showPassword := lf_showPassword f;
         lf_validationError := message;
         lf_isEmailNotVerified := notVerified;
         lf_resendSuccess := false |} in
    if isEmpty (lf_email f) || isEmpty (lf_password f) then
      ({| form := cleared "Email and password are required" false;
          navigated := None; reported := None |}, w)
    else
      let '(c, w') :=
        loginUser {| cred_email := lf_email f; cred_password := lf_password f |} ex w in
      match unwrap c with
      | Returned _ =>
          ({| form := cleared EmptyString false;
              navigated := Some {| nav_to := "/"; nav_message := None |};
              reported := None |}, w')
      | ThrownValue value =>
          (* a string has no [message]: [error?.message?.includes(...)]
             is undefined *)
          ({| form := cleared EmptyString false;
              navigated := None; reported := Some value |}, w')
      | ThrownError e =>
          ({| form := cleared EmptyString
                        (includes (js_message e) "verify your email");
              navigated := None; reported := Some (js_message e) |}, w')
      end.

(** *** ResetPassword.tsx (unnamed/part_001)

    The checks of [handleSubmit] that come before the mutation is
    called: the message shown, or [None] when the mutation is called.
    The argument [token] is [searchParams.get('token')], and
    [|| ''] turns [null] into the empty string. *)
Definition ResetPassword_validation
  (token : option string) (newPassword confirmPassword : string) : option string :=
  let token := default EmptyString token in
  if isEmpty newPassword || isEmpty confirmPassword then
    Some "Both password fields are required"
  else if negb (String.eqb newPassword confirmPassword) then
    Some "Passwords do not match"
  else if (String.length newPassword <? 8)%nat then
    Some "Password must be at least 8 characters long"
  else if isEmpty token then Some "Invalid reset token"
  else None.

End Components.

(** ** Further notions used to state properties *)

Module Lifecycle.

Import AuthSlice TokenStorage Runtime ErrorLink Client AuthThunks Properties.

(** The access token of the token store and the one of the session
    state are the same. *)
Definition inSync (w : World) : Prop :=
  getAccessToken (localStorage w) = accessToken (auth w).

(** The world of a page that starts on the storage [ls]: the store is
    created with [initialState]; [App] then dispatches [initializeAuth]. *)
Definition startup (ls : Storage) : World :=
  {| localStorage := ls; auth := initialState; network := []; console := [] |}.

(** A token [header.payload.signature]. *)
Definition jwt (header payload signature : string) : string :=
  header +:+ "." +:+ payload +:+ "." +:+ signature.

(** The string has no dot in it. *)
Definition dotFree (s : string) : Prop := ~ In 46%N (JS.units s).

(** The three fields of the session state that hold the session. *)
Definition sessionFields (s : AuthState) : option User * option string * option string :=
  (user s, accessToken s, refreshToken s).

(** The two slots that no session action fills: the refresh token is
    absent or empty and there is no user data. *)
Definition unusedSlotsEmpty (ls : Storage) : Prop :=
  (getRefreshToken ls = None \/ getRefreshToken ls = Some EmptyString) /\
  ls !! key USER_DATA = None.

(** The register form passes its own checks. *)
Definition registerValid (f : Components.RegisterForm) : Prop :=
  Components.rf_email f <> EmptyString /\
  Components.rf_password f <> EmptyString /\
  Components.rf_name f <> EmptyString /\
  6 <= String.length (Components.rf_password f).

(** The registration that the register form submits. *)
Definition registrationOf (f : Components.RegisterForm) : RegisterData :=
  {| reg_email := Components.rf_email f;
     reg_password := Components.rf_password f;
     reg_name := Components.rf_name f |}.

Definition credentialsOf (f : Components.LoginForm) : LoginCredentials :=
  {| cred_email := Components.lf_email f;
     cred_password := Components.lf_password f |}.

End Lifecycle.

(** ** More sample data *)

Module Samples.

Import AuthSlice TokenStorage Runtime ErrorLink Client.

(** A token as a server issues it, in base64url: the payload is an
    object with [exp] 9999999999 and a text whose encoding holds a
    [-]; and the same payload in plain base64, where that character is
    a [+]. *)
Definition tokenBase64url : string :=
  Scenario.jwtHeader +:+ ".eyJleHAiOjk5OTk5OTk5OTksInEiOiJhP2I-YyJ9.c2ln".

Definition tokenBase64 : string :=
  Scenario.jwtHeader +:+ ".eyJleHAiOjk5OTk5OTk5OTksInEiOiJhP2I+YyJ9.c2ln".

(** A session state with an error left over from a failed attempt. *)
Definition failedBefore : World :=
  {| localStorage := ∅;
     auth := {| user := None; accessToken := None; refreshToken := None;
                status := ERROR;
                error := Some {| error_type := INVALID_CREDENTIALS;
                                 error_message := "Invalid email or password" |} |};
     network := [];
     console := [] |}.

Definition aliceLogin : AuthPayload :=
  {| payload_user := Scenario.alice; payload_accessToken := "token-1" |}.

(** The register form filled in with a password of five characters,
    and with one of eight. *)
Definition shortPasswordForm : Components.RegisterForm :=
  {| Components.rf_email := "b@x.com"; Components.rf_password := "pw123";
     Components.rf_name := "B"; Components.rf_showPassword := false;
     Components.rf_validationError := EmptyString |}.

Definition filledForm : Components.RegisterForm :=
  {| Components.rf_email := "b@x.com"; Components.rf_password := "pw654321";
     Components.rf_name := "B"; Components.rf_showPassword := false;
     Components.rf_validationError := EmptyString |}.

(** The register form with a password of six characters. *)
Definition sixCharacterForm : Components.RegisterForm :=
  {| Components.rf_email := "b@x.com"; Components.rf_password := "pw1234";
     Components.rf_name := "B"; Components.rf_showPassword := false;
     Components.rf_validationError := EmptyString |}.

(** The login form filled in, and a server that refuses the login of an
    account whose address is not verified yet. *)
Definition loginForm : Components.LoginForm :=
  {| Components.lf_email := "a@x.com"; Components.lf_password := "pw123456";
     Components.lf_showPassword := false;
     Components.lf_validationError := EmptyString;
     Components.lf_isEmailNotVerified := false;
     Components.lf_resendSuccess := false |}.

Definition notVerified : GraphQLError :=
  {| gql_message := "Please verify your email before logging in";
     gql_code := Some "FORBIDDEN" |}.

End Samples.

Import AuthSlice TokenStorage Runtime ErrorLink Client AuthThunks Properties.

(** ** SessionState *)

Section SessionState.

Lemma initialState_invariant : sessionInvariant initialState.
Proof.
  unfold sessionInvariant, unresolvedError; simpl.
  split; [discriminate | intros [H _]; congruence].
Qed.

(** C1, as amended.  With an unresolved error read as status [ERROR],
    the reducers [setUser], [setTokens], [clearAuth] and [setError]
    keep the session invariant for every payload, and [setStatus(p)]
    keeps it exactly when [p] is [ERROR] or [p] is [AUTHENTICATED] iff
    the user field is set. *)
Theorem reducer_invariant (s : AuthState) (a : Action) :
  sessionInvariant s ->
  (sessionInvariant (reducer s a) <-> statusAdmissible s a).
Proof.
  unfold sessionInvariant, unresolvedError.
  intros Hs.
  destruct a as [u | t | | e | p]; simpl.
  - split; [trivial | intros _].
    split; [intros _; split; congruence | trivial].
  - tauto.
  - split; [trivial | intros _].
    split; [discriminate | intros [H _]; congruence].
  - split; [trivial | intros _].
    split; [discriminate | intros [_ H]; congruence].
  - split.
    + intros Hp.
      destruct (decide (p = ERROR)) as [-> | Hne]; [now left | right].
      split; [intros H; now apply Hp | intros H; apply Hp; now split].
    + intros [-> | Hp].
      * split; [discriminate | intros [_ H]; congruence].
      * split; [intros ->; split; [now apply Hp | discriminate]
               | intros [H _]; now apply Hp].
Qed.

Lemma reducer_invariant_witness :
  sessionInvariant initialState /\
  (sessionInvariant (reducer initialState ClearAuth)
   <-> statusAdmissible initialState ClearAuth).
Proof.
  split.
  - exact initialState_invariant.
  - apply (reducer_invariant initialState ClearAuth).
    exact initialState_invariant.
Defined.

(** C1 as stated fails: from the initial state, which satisfies the
    invariant, [setStatus(AUTHENTICATED)] yields a state with status
    [AUTHENTICATED] and no user, which violates it. *)
Lemma setStatus_breaks_invariant :
  sessionInvariant initialState /\
  status (reducer initialState (SetStatus AUTHENTICATED)) = AUTHENTICATED /\
  user (reducer initialState (SetStatus AUTHENTICATED)) = None /\
  ~ sessionInvariant (reducer initialState (SetStatus AUTHENTICATED)).
Proof.
  split; [exact initialState_invariant |].
  split; [reflexivity |].
  split; [reflexivity |].
  unfold sessionInvariant; simpl.
  intros [H _]. destruct (H eq_refl) as [Hu _]. now apply Hu.
Qed.

(** The selector does not rely on the invariant: it is true only when
    there is a user. *)
Lemma selectIsAuthenticated_user (s : AuthState) :
  selectIsAuthenticated s = true <->
  status s = AUTHENTICATED /\ user s <> None.
Proof.
  unfold selectIsAuthenticated.
  rewrite andb_true_iff, bool_decide_eq_true.
  destruct (user s); split; intros [H1 H2]; split; congruence.
Qed.

End SessionState.

(** ** TokenStore *)

Section TokenStore.

Lemma key_inj (j k : StorageKey) : key j = key k -> j = k.
Proof. destruct j, k; simpl; intros H; congruence. Qed.

Lemma clearTokens_lookup (ls : Storage) (k : StorageKey) :
  clearTokens ls !! key k = None.
Proof.
  unfold clearTokens.
  destruct k; simpl;
    repeat first [ apply lookup_delete_eq
                 | rewrite lookup_delete_ne by discriminate ].
Qed.

Lemma clearTokens_cleared (ls : Storage) : slotsCleared (clearTokens ls).
Proof. intros k. apply clearTokens_lookup. Qed.

Lemma clearTokens_other (ls : Storage) (name : string) :
  (forall k, name <> key k) -> clearTokens ls !! name = ls !! name.
Proof.
  intros H. unfold clearTokens.
  rewrite !lookup_delete_ne; [reflexivity | | |];
    intros E; symmetry in E; revert E; apply H.
Qed.

Lemma clearTokens_idemp (ls : Storage) :
  clearTokens (clearTokens ls) = clearTokens ls.
Proof.
  apply map_eq; intros name. unfold clearTokens.
  rewrite !lookup_delete. repeat case_decide; reflexivity.
Qed.

Lemma saveTokens_get (a r : string) (ls : Storage) :
  getAccessToken (saveTokens a r ls) = Some a /\
  getRefreshToken (saveTokens a r ls) = Some r.
Proof.
  unfold getAccessToken, getRefreshToken, saveTokens; simpl.
  split.
  - rewrite lookup_insert_ne by discriminate. apply lookup_insert_eq.
  - apply lookup_insert_eq.
Qed.

End TokenStore.

(** ** The link chain *)

Section Links.

Lemma isAuthError_carries (errors : list GraphQLError) :
  isAuthError errors = true <->
  exists e, In e errors /\
    (gql_code e = Some "UNAUTHENTICATED" \/ gql_code e = Some "FORBIDDEN").
Proof.
  unfold isAuthError. rewrite existsb_exists.
  split; intros [e [Hin H]]; exists e; split; trivial.
  - apply orb_true_iff in H.
    destruct H as [H | H]; apply bool_decide_eq_true in H; auto.
  - apply orb_true_iff.
    destruct H as [H | H]; [left | right]; now apply bool_decide_eq_true.
Qed.

Lemma forEach_log {A} (line : A -> ConsoleEntry) (l : list A) (w : World) :
  forEach l (fun e => console_error (line e)) w =
  (Normal tt,
   {| localStorage := localStorage w; auth := auth w; network := network w;
      console := console w ++ map line l |}).
Proof.
  revert w. induction l as [| x l IH]; intros w; simpl.
  - unfold ret. rewrite app_nil_r. now destruct w.
  - unfold bind, console_error. rewrite IH. simpl.
    now rewrite <- app_assoc.
Qed.

(** What the error link does to the world, in one equation. *)
Lemma errorLink_run (r : ErrorResponse) (w : World) :
  errorLink r w =
  (Normal tt,
   let torn := match graphQLErrors r with
               | Some errors => isAuthError errors
               | None => false
               end in
   {| localStorage := if torn then clearTokens (localStorage w) else localStorage w;
      auth := if torn then clearAuth (auth w) else auth w;
      network := network w;
      console :=
        console w
        ++ map GraphQLErrorLine (default [] (graphQLErrors r))
        ++ match networkError r with
           | Some e => [NetworkErrorLine e]
           | None => []
           end |}).
Proof.
  unfold errorLink, bind.
  destruct r as [[errors |] ne]; simpl.
  - destruct (isAuthError errors); simpl;
      rewrite forEach_log; simpl;
      destruct ne; simpl; unfold console_error, ret; simpl;
      now rewrite ?app_nil_r, <- ?app_assoc.
  - destruct ne; simpl; unfold console_error, ret; simpl;
      [reflexivity | rewrite app_nil_r; now destruct w].
Qed.

(** One round trip through the client. *)
Lemma execute_run {D} (op : Operation) (ex : Exchange D) (w : World) :
  execute op ex w =
  (match settled ex with
   | Resolved data errors => Normal (data, errors)
   | Rejected e => Throw e
   end,
   afterExchange op ex w).
Proof.
  unfold execute, afterExchange, tearsDown, loggedLines, bind, readStorage, send.
  simpl.
  destruct ex as [[r |] st]; simpl.
  - rewrite errorLink_run; simpl.
    destruct st; reflexivity.
  - unfold ret. rewrite app_nil_r. destruct st; reflexivity.
Qed.

(** The error link is triggered exactly by a response that carries an
    error of code [UNAUTHENTICATED] or [FORBIDDEN]. *)
Lemma tearsDown_carries {D} (ex : Exchange D) :
  tearsDown ex = true <->
  exists r, link_error ex = Some r /\ carriesAuthCode r.
Proof.
  unfold tearsDown, carriesAuthCode. split.
  - destruct (link_error ex) as [r |]; [| discriminate].
    destruct (graphQLErrors r) as [errors |] eqn:Hg; [| discriminate].
    intros Hauth. apply isAuthError_carries in Hauth.
    destruct Hauth as (e & Hin & Hcode).
    exists r. split; [reflexivity |]. exists errors, e. auto.
  - intros (r & -> & errors & e & -> & Hin & Hcode).
    apply isAuthError_carries. eauto.
Qed.

End Links.

(** ** SessionActions and the FailureInterceptor *)

Section SessionActions.

#[local] Arguments execute {D} op ex w : simpl never.

Ltac run_thunk :=
  unfold final, outcome, attempt, loginUser, registerUser, logoutUser,
    initializeAuth, try_catch, bind, mutate, query;
  simpl; rewrite ?execute_run.

Lemma logoutUser_run (ex : Exchange unit) (w : World) :
  logoutUser ex w =
  (Normal tt,
   {| localStorage := clearTokens (localStorage w);
      auth := signedOut;
      network := network (afterExchange LOGOUT_MUTATION ex w);
      console :=
        console (afterExchange LOGOUT_MUTATION ex w)
        ++ match settled ex with
           | Rejected e => [LogoutFailedLine (js_message e)]
           | Resolved _ _ => []
           end |}).
Proof.
  run_thunk.
  destruct (settled ex) as [data errors | e]; simpl;
    unfold afterExchange; destruct (tearsDown ex); simpl;
    rewrite ?clearTokens_idemp, ?app_nil_r; reflexivity.
Qed.

(** C2.  Whatever the remote logout call does (it resolves, resolves
    with errors, or rejects; the error link is triggered or not), the
    logout thunk completes normally with the three slots of the token
    store removed and the session state reset: no user, no tokens, no
    error, status [UNAUTHENTICATED]. *)
Theorem logoutUser_cleanup (ex : Exchange unit) (w : World) :
  outcome (logoutUser ex) w = Normal tt /\
  slotsCleared (localStorage (final (logoutUser ex) w)) /\
  user (auth (final (logoutUser ex) w)) = None /\
  accessToken (auth (final (logoutUser ex) w)) = None /\
  refreshToken (auth (final (logoutUser ex) w)) = None /\
  error (auth (final (logoutUser ex) w)) = None /\
  status (auth (final (logoutUser ex) w)) = UNAUTHENTICATED.
Proof.
  unfold outcome, final. rewrite logoutUser_run. simpl.
  repeat split. apply clearTokens_cleared.
Qed.

(** C3.  A response whose error list holds an error of code
    [UNAUTHENTICATED] or [FORBIDDEN] makes the error link clear the
    three slots and reset the session state, which is what logout
    leaves in the token store and the session state, and this happens
    inside every operation of the client whose exchange carries that
    response.  A response without such a code leaves the token store
    and the session state as they are. *)
Theorem errorLink_teardown (r : ErrorResponse) (w : World) :
  (carriesAuthCode r ->
   slotsCleared (localStorage (final (errorLink r) w)) /\
   auth (final (errorLink r) w) = signedOut /\
   (forall ex : Exchange unit,
      localStorage (final (errorLink r) w) = localStorage (final (logoutUser ex) w) /\
      auth (final (errorLink r) w) = auth (final (logoutUser ex) w)) /\
   (forall D (op : Operation) (ex : Exchange D),
      link_error ex = Some r ->
      slotsCleared (localStorage (final (execute op ex) w)) /\
      auth (final (execute op ex) w) = signedOut)) /\
  (~ carriesAuthCode r ->
   localStorage (final (errorLink r) w) = localStorage w /\
   auth (final (errorLink r) w) = auth w /\
   network (final (errorLink r) w) = network w).
Proof.
  unfold final. rewrite errorLink_run. simpl.
  split.
  - intros (errors & e & Hg & Hin & Hcode).
    assert (Hauth : isAuthError errors = true)
      by (apply isAuthError_carries; eauto).
    rewrite Hg, Hauth.
    split; [apply clearTokens_cleared |].
    split; [reflexivity |].
    split.
    + intros ex. rewrite logoutUser_run. simpl. now split.
    + intros D op ex Hex. rewrite execute_run.
      unfold afterExchange, tearsDown. rewrite Hex, Hg, Hauth. simpl.
      split; [apply clearTokens_cleared | reflexivity].
  - intros Hno.
    assert (Hcalm : match graphQLErrors r with
                    | Some errors => isAuthError errors
                    | None => false
                    end = false).
    { destruct (graphQLErrors r) as [errors |] eqn:Hg; [| reflexivity].
      destruct (isAuthError errors) eqn:Hauth; [| reflexivity].
      exfalso. apply Hno.
      apply isAuthError_carries in Hauth. destruct Hauth as (e & Hin & Hcode).
      exists errors, e. auto. }
    rewrite Hcalm. auto.
Qed.

(** C7.  With no access token in the token store, initialisation only
    sets the status to [UNAUTHENTICATED]: it returns [null], sends no
    request, and leaves the token store, the other fields of the
    session state and the console as they were. *)
Theorem initializeAuth_without_token (ex : Exchange User) (w : World) :
  getAccessToken (localStorage w) = None ->
  outcome (initializeAuth ex) w = Normal None /\
  status (auth (final (initializeAuth ex) w)) = UNAUTHENTICATED /\
  network (final (initializeAuth ex) w) = network w /\
  localStorage (final (initializeAuth ex) w) = localStorage w /\
  user (auth (final (initializeAuth ex) w)) = user (auth w) /\
  accessToken (auth (final (initializeAuth ex) w)) = accessToken (auth w) /\
  refreshToken (auth (final (initializeAuth ex) w)) = refreshToken (auth w) /\
  error (auth (final (initializeAuth ex) w)) = error (auth w) /\
  console (final (initializeAuth ex) w) = console w.
Proof.
  intros Hnone. run_thunk. unfold readStorage. rewrite Hnone. simpl.
  repeat split.
Qed.

(** The empty string is as good as no token. *)
Lemma initializeAuth_empty_token (ex : Exchange User) (w : World) :
  getAccessToken (localStorage w) = Some EmptyString ->
  outcome (initializeAuth ex) w = Normal None /\
  network (final (initializeAuth ex) w) = network w.
Proof.
  intros Hempty. run_thunk. unfold readStorage. rewrite Hempty. simpl.
  now split.
Qed.

(** C6.  When the register call succeeds, the thunk returns the created
    profile and sets the status to [UNAUTHENTICATED]; the user and
    token fields of the session state keep their values, so the new
    account is not signed in, and the token store is not written. *)
Theorem registerUser_success
  (registerData : RegisterData) (ex : Exchange AuthPayload) (p : AuthPayload) (w : World) :
  succeeds ex p ->
  outcome (registerUser registerData ex) w = Normal (Fulfilled (payload_user p)) /\
  status (auth (final (registerUser registerData ex) w)) = UNAUTHENTICATED /\
  selectIsAuthenticated (auth (final (registerUser registerData ex) w)) = false /\
  user (auth (final (registerUser registerData ex) w)) = user (auth w) /\
  accessToken (auth (final (registerUser registerData ex) w)) = accessToken (auth w) /\
  refreshToken (auth (final (registerUser registerData ex) w)) = refreshToken (auth w) /\
  localStorage (final (registerUser registerData ex) w) = localStorage w.
Proof.
  intros [Hlink Hsettled]. run_thunk.
  unfold afterExchange, tearsDown. rewrite Hsettled, Hlink. simpl.
  repeat split.
Qed.

(** A login that the server accepts, from the world at process start,
    leads to the signed-in world of the sample data. *)
Example loginUser_accepted :
  outcome (loginUser Scenario.credentials
             (Scenario.answered {| payload_user := Scenario.alice;
                                   payload_accessToken := "token-1" |}))
          Scenario.freshWorld
  = Normal (Fulfilled Scenario.alice) /\
  auth (final (loginUser Scenario.credentials
                 (Scenario.answered {| payload_user := Scenario.alice;
                                       payload_accessToken := "token-1" |}))
              Scenario.freshWorld)
  = auth Scenario.signedInWorld /\
  localStorage (final (loginUser Scenario.credentials
                         (Scenario.answered {| payload_user := Scenario.alice;
                                               payload_accessToken := "token-1" |}))
                      Scenario.freshWorld)
  = localStorage Scenario.signedInWorld.
Proof. repeat split; reflexivity. Qed.

Lemma initializeAuth_without_token_witness :
  getAccessToken (localStorage Scenario.freshWorld) = None /\
  status (auth (final (initializeAuth Scenario.offline) Scenario.freshWorld))
  = UNAUTHENTICATED /\
  network (final (initializeAuth Scenario.offline) Scenario.freshWorld) = [].
Proof.
  split; [reflexivity |].
  destruct (initializeAuth_without_token Scenario.offline Scenario.freshWorld)
    as (_ & Hstatus & Hnetwork & _); [reflexivity |].
  split; [exact Hstatus | exact Hnetwork].
Defined.

Lemma registerUser_success_witness :
  succeeds (Scenario.answered Scenario.created) Scenario.created /\
  status (auth (final (registerUser Scenario.registration
                         (Scenario.answered Scenario.created))
                      Scenario.freshWorld)) = UNAUTHENTICATED /\
  localStorage (final (registerUser Scenario.registration
                         (Scenario.answered Scenario.created))
                      Scenario.freshWorld) = ∅.
Proof.
  assert (H : succeeds (Scenario.answered Scenario.created) Scenario.created)
    by (split; reflexivity).
  split; [exact H |].
  destruct (registerUser_success Scenario.registration _ _ Scenario.freshWorld H)
    as (_ & Hstatus & _ & _ & _ & _ & Hstore).
  split; [exact Hstatus | exact Hstore].
Defined.

Lemma errorLink_teardown_witness :
  carriesAuthCode {| graphQLErrors := Some [Scenario.wrongPassword];
                     networkError := None |} /\
  auth (final (errorLink {| graphQLErrors := Some [Scenario.wrongPassword];
                            networkError := None |})
              Scenario.signedInWorld) = signedOut /\
  ~ carriesAuthCode {| graphQLErrors := None;
                       networkError := Some "TypeError: Failed to fetch" |} /\
  auth (final (errorLink {| graphQLErrors := None;
                            networkError := Some "TypeError: Failed to fetch" |})
              Scenario.signedInWorld) = auth Scenario.signedInWorld.
Proof.
  assert (Hyes : carriesAuthCode {| graphQLErrors := Some [Scenario.wrongPassword];
                                    networkError := None |}).
  { exists [Scenario.wrongPassword], Scenario.wrongPassword.
    split; [reflexivity |]. split; [now left | now left]. }
  assert (Hno : ~ carriesAuthCode
                  {| graphQLErrors := None;
                     networkError := Some "TypeError: Failed to fetch" |}).
  { intros (errors & e & Hg & _). discriminate Hg. }
  split; [exact Hyes |].
  split; [apply (errorLink_teardown _ Scenario.signedInWorld); exact Hyes |].
  split; [exact Hno |].
  apply (errorLink_teardown _ Scenario.signedInWorld); exact Hno.
Defined.

(** C4.  The client rejects a call whose response carries GraphQL
    errors, so a login the server refuses reaches the thunk the way a
    transport failure does: whenever the login thunk fails under the
    client's error policy it ends with status [ERROR] and an error of
    kind [NETWORK_ERROR] holding the message it rejects with, never
    [INVALID_CREDENTIALS].  The token store and the user field keep
    their values when the error link is not triggered. *)
Theorem loginUser_failure_kind
  (credentials : LoginCredentials) (ex : Exchange AuthPayload) (w : World)
  (message : string) :
  defaultErrorPolicy ex ->
  outcome (loginUser credentials ex) w = Normal (RejectWithValue message) ->
  status (auth (final (loginUser credentials ex) w)) = ERROR /\
  error (auth (final (loginUser credentials ex) w))
  = Some {| error_type := NETWORK_ERROR; error_message := message |} /\
  (tearsDown ex = false ->
   localStorage (final (loginUser credentials ex) w) = localStorage w /\
   user (auth (final (loginUser credentials ex) w)) = user (auth w)).
Proof.
  unfold defaultErrorPolicy. run_thunk. unfold afterExchange.
  destruct (settled ex) as [[p |] errors | err]; simpl;
    intros Hpolicy Hout; subst; simpl in *;
    try discriminate Hout;
    injection Hout as <-;
    (split; [reflexivity |]); (split; [reflexivity |]);
    intros Hcalm; rewrite Hcalm; now split.
Qed.

Lemma loginUser_failure_kind_witness :
  defaultErrorPolicy (Scenario.refusedThrowing Scenario.badInput : Exchange AuthPayload) /\
  outcome (loginUser Scenario.credentials
             (Scenario.refusedThrowing Scenario.badInput))
          Scenario.signedInWorld
  = Normal (RejectWithValue "Invalid email or password") /\
  tearsDown (Scenario.refusedThrowing Scenario.badInput : Exchange AuthPayload) = false /\
  error (auth (final (loginUser Scenario.credentials
                        (Scenario.refusedThrowing Scenario.badInput))
                     Scenario.signedInWorld))
  = Some {| error_type := NETWORK_ERROR;
            error_message := "Invalid email or password" |} /\
  localStorage (final (loginUser Scenario.credentials
                         (Scenario.refusedThrowing Scenario.badInput))
                      Scenario.signedInWorld)
  = localStorage Scenario.signedInWorld.
Proof.
  split; [exact I |]. split; [reflexivity |]. split; [reflexivity |].
  destruct (loginUser_failure_kind Scenario.credentials
              (Scenario.refusedThrowing Scenario.badInput) Scenario.signedInWorld
              "Invalid email or password" I eq_refl)
    as (_ & Herror & Hframe).
  split; [exact Herror |].
  destruct (Hframe eq_refl) as [Hstore _]. exact Hstore.
Defined.

(** C4 fails on a wrong password.  The server refuses the login with
    the message of [badInput]; the error link sees the error, the call
    rejects, and the thunk records [NETWORK_ERROR] where the kind for
    refused credentials is [INVALID_CREDENTIALS].  When the refusal
    has the code [UNAUTHENTICATED] and alice is signed in, the error
    link has also removed her access token and her user record. *)
Lemma loginUser_wrong_password :
  defaultErrorPolicy (Scenario.refusedThrowing Scenario.badInput : Exchange AuthPayload) /\
  link_error (Scenario.refusedThrowing Scenario.badInput : Exchange AuthPayload)
  = Some {| graphQLErrors := Some [Scenario.badInput]; networkError := None |} /\
  auth (final (loginUser Scenario.credentials
                 (Scenario.refusedThrowing Scenario.badInput))
              Scenario.freshWorld)
  = {| user := None; accessToken := None; refreshToken := None;
       status := ERROR;
       error := Some {| error_type := NETWORK_ERROR;
                        error_message := "Invalid email or password" |} |} /\
  getAccessToken (localStorage Scenario.signedInWorld) = Some "token-1" /\
  user (auth Scenario.signedInWorld) = Some Scenario.alice /\
  getAccessToken
    (localStorage (final (loginUser Scenario.credentials
                            (Scenario.refusedThrowing Scenario.wrongPassword))
                         Scenario.signedInWorld)) = None /\
  user (auth (final (loginUser Scenario.credentials
                       (Scenario.refusedThrowing Scenario.wrongPassword))
                    Scenario.signedInWorld)) = None.
Proof. repeat split; reflexivity. Qed.


(** Whatever the error link did, a failed attempt leaves the status at
    [ERROR], so the selector reads false until the status changes. *)
Lemma failed_attempt_selector
  (a : Attempt) (ex : Exchange AuthPayload) (w : World) (message : string) :
  outcome (attempt a ex) w = Normal (RejectWithValue message) ->
  status (auth (final (attempt a ex) w)) = ERROR /\
  selectIsAuthenticated (auth (final (attempt a ex) w)) = false.
Proof.
  destruct a as [c | d]; run_thunk; unfold afterExchange;
    destruct (settled ex) as [[p |] [| e errors] | err]; simpl;
    intros Hout; try discriminate Hout; now split.
Qed.



End SessionActions.

(** ** CredentialInjector *)

Section CredentialInjector.

(** C9, as amended.  For a request whose context carries no
    [authorization] header yet, the auth link sets that header exactly
    when the token store holds an access token that is neither [null]
    nor the empty string; its value is then [Bearer] followed by the
    token, and no other header is touched. *)
Theorem authLink_header (ls : Storage) (headers : gmap string string) :
  headers !! "authorization" = None ->
  (forall v,
     AuthLink.authLink ls headers !! "authorization" = Some v <->
     exists t, getAccessToken ls = Some t /\ t <> EmptyString /\ v = bearer t) /\
  (forall name,
     name <> "authorization" -> AuthLink.authLink ls headers !! name = headers !! name).
Proof.
  intros Hfree. unfold AuthLink.authLink, AuthLink.truthy, bearer.
  destruct (getAccessToken ls) as [t |] eqn:Htoken.
  - destruct (String.eqb_spec t EmptyString) as [-> | Hne]; simpl.
    + split; [| reflexivity].
      intros v. rewrite Hfree. split; [discriminate |].
      intros (t & [= <-] & Hne & _). now destruct Hne.
    + split.
      * intros v. rewrite lookup_insert_eq. split.
        -- intros [= <-]. now exists t.
        -- intros (t' & [= <-] & _ & ->). reflexivity.
      * intros name Hname. now rewrite lookup_insert_ne.
  - split; [| reflexivity].
    intros v. rewrite Hfree. split; [discriminate |].
    intros (t & Ht & _). discriminate Ht.
Qed.

Lemma authLink_header_witness :
  (∅ : gmap string string) !! "authorization" = None /\
  AuthLink.authLink (localStorage Scenario.signedInWorld) ∅ !! "authorization"
  = Some "Bearer token-1".
Proof.
  assert (Hfree : (∅ : gmap string string) !! "authorization" = None)
    by reflexivity.
  split; [exact Hfree |].
  destruct (authLink_header (localStorage Scenario.signedInWorld) ∅ Hfree)
    as [Hiff _].
  apply Hiff. exists "token-1".
  split; [reflexivity |]. split; [discriminate | reflexivity].
Defined.

(** C9 as stated fails: an access token that is the empty string is
    not [null], and no header is attached for it. *)
Lemma authLink_empty_token :
  getAccessToken (saveTokens EmptyString EmptyString ∅) = Some EmptyString /\
  getAccessToken (saveTokens EmptyString EmptyString ∅) <> None /\
  AuthLink.authLink (saveTokens EmptyString EmptyString ∅) ∅ !! "authorization" = None.
Proof. split; [reflexivity |]. split; [discriminate | reflexivity]. Qed.

(** The requests that the client sends carry the headers of the auth
    link applied to an empty context. *)
Lemma execute_request {D} (op : Operation) (ex : Exchange D) (w : World) :
  network (final (execute op ex) w) =
  network w ++ [{| req_operation := op;
                   req_headers := AuthLink.authLink (localStorage w) ∅ |}].
Proof. unfold final. now rewrite execute_run. Qed.

End CredentialInjector.

(** ** Rounding to a double against whole numbers *)

Section Rounding.

Import JS.

Open Scope Z_scope.

Lemma nearestEven_upper (N D T : Z) :
  0 < D -> N <= T * D -> nearestEven N D <= T.
Proof.
  intros HD HN. unfold nearestEven.
  pose proof (Z.div_mod N D ltac:(lia)) as Hdm.
  pose proof (Z.mod_pos_bound N D HD) as Hr.
  assert (Hk : N / D <= T) by (apply Z.div_le_upper_bound; lia).
  destruct (Z.eq_dec (N / D) T) as [Heq | Hne].
  - assert (Hzero : N mod D = 0) by nia.
    assert (Hc : (2 * (N mod D) ?= D) = Lt) by (apply Z.compare_lt_iff; lia).
    rewrite Hc. lia.
  - destruct (2 * (N mod D) ?= D); [destruct (Z.even _) | |]; lia.
Qed.

Lemma nearestEven_lower (N D T : Z) :
  0 < D -> T * D <= N -> T <= nearestEven N D.
Proof.
  intros HD HN. unfold nearestEven.
  assert (Hk : T <= N / D) by (apply Z.div_le_lower_bound; lia).
  destruct (2 * (N mod D) ?= D); [destruct (Z.even _) | |]; lia.
Qed.

Lemma exponentOf_le (n d : Z) :
  0 < n -> 0 < d -> 0 <= exponentOf n d -> 2 ^ exponentOf n d * d <= n.
Proof.
  intros Hn Hd. unfold exponentOf.
  destruct (pow2_le _ n d) eqn:Htest; intros He.
  - unfold pow2_le in Htest.
    destruct (0 <=? _) eqn:Hsign; [now apply Z.leb_le | apply Z.leb_gt in Hsign; lia].
  - pose proof (Z.log2_spec n Hn) as [Hln _].
    pose proof (Z.log2_spec d Hd) as [_ Hld].
    pose proof (Z.log2_nonneg d) as Hd0.
    assert (Hsplit : 2 ^ Z.log2 n = 2 ^ (Z.log2 n - Z.log2 d - 1) * 2 ^ Z.succ (Z.log2 d)).
    { rewrite <- Z.pow_add_r by lia. f_equal. lia. }
    assert (Hpos : 0 < 2 ^ (Z.log2 n - Z.log2 d - 1)) by (apply Z.pow_pos_nonneg; lia).
    nia.
Qed.

Lemma quantum_small (n d t : Z) :
  0 < n -> 0 < d -> t < 2 ^ 53 -> n <= t * d ->
  Z.max (exponentOf n d - 52) (-1074) <= 0.
Proof.
  intros Hn Hd Ht Hle.
  destruct (Z_le_gt_dec (exponentOf n d) 52) as [| Hbig]; [lia |].
  exfalso.
  pose proof (exponentOf_le n d Hn Hd ltac:(lia)) as He.
  assert (Hmono : 2 ^ 53 <= 2 ^ exponentOf n d) by (apply Z.pow_le_mono_r; lia).
  nia.
Qed.

Lemma Qred_le_inject (k : Z) (P : positive) (t : Z) :
  k <= t * Zpos P -> (Qred (k # P) <= inject_Z t)%Q.
Proof.
  intros H. rewrite Qred_correct. unfold Qle. simpl. lia.
Qed.

Lemma inject_le_Qred (k : Z) (P : positive) (t : Z) :
  t * Zpos P <= k -> (inject_Z t <= Qred (k # P))%Q.
Proof.
  intros H. rewrite Qred_correct. unfold Qle. simpl. lia.
Qed.

(** A positive rational at or below a whole number under 2^53 rounds to
    a double at or below it. *)
Lemma roundPositive_upper (n d t : Z) :
  0 < n -> 0 < d -> t < 2 ^ 53 -> n <= t * d ->
  exists r, roundPositive n d = Some r /\ (r <= inject_Z t)%Q.
Proof.
  intros Hn Hd Ht Hle.
  pose proof (quantum_small n d t Hn Hd Ht Hle) as Hsmall.
  unfold roundPositive.
  remember (Z.max (exponentOf n d - 52) (-1074)) as p eqn:Hp.
  destruct (0 <=? p) eqn:Hsign.
  - apply Z.leb_le in Hsign.
    replace p with 0 by lia.
    rewrite Z.pow_0_r, !Z.mul_1_r.
    pose proof (nearestEven_upper n d t Hd Hle) as Hk.
    destruct (2 ^ 1024 <=? nearestEven n d) eqn:Hover.
    + apply Z.leb_le in Hover.
      assert (2 ^ 53 < 2 ^ 1024) by (apply Z.pow_lt_mono_r; lia). lia.
    + eexists. split; [reflexivity |]. now rewrite <- Zle_Qle.
  - apply Z.leb_gt in Hsign.
    eexists. split; [reflexivity |].
    assert (Hpow : 0 < 2 ^ (- p)) by (apply Z.pow_pos_nonneg; lia).
    apply Qred_le_inject. rewrite Z2Pos.id by exact Hpow.
    apply nearestEven_upper; [exact Hd | nia].
Qed.

(** A positive rational at or above a whole number up to 2^53 rounds to
    a double at or above it, or overflows. *)
Lemma roundPositive_lower (n d t : Z) :
  0 < n -> 0 < d -> t <= 2 ^ 53 -> t * d <= n ->
  match roundPositive n d with
  | Some r => (inject_Z t <= r)%Q
  | None => True
  end.
Proof.
  intros Hn Hd Ht Hle.
  unfold roundPositive.
  remember (Z.max (exponentOf n d - 52) (-1074)) as p eqn:Hp.
  destruct (0 <=? p) eqn:Hsign.
  - apply Z.leb_le in Hsign.
    destruct (2 ^ 1024 <=? _) eqn:Hover; [exact I |].
    rewrite <- Zle_Qle.
    destruct (Z.eq_dec p 0) as [Hzero | Hpos].
    + rewrite Hzero, Z.pow_0_r, !Z.mul_1_r. now apply nearestEven_lower.
    + assert (He : p = exponentOf n d - 52) by lia.
      pose proof (exponentOf_le n d Hn Hd ltac:(lia)) as Hexp.
      assert (Hsplit : 2 ^ exponentOf n d = 2 ^ 52 * 2 ^ p).
      { rewrite <- Z.pow_add_r by lia. f_equal. lia. }
      assert (Hpow : 0 < 2 ^ p) by (apply Z.pow_pos_nonneg; lia).
      assert (Hk : 2 ^ 52 <= nearestEven n (d * 2 ^ p))
        by (apply nearestEven_lower; nia).
      assert (Htwo : 2 <= 2 ^ p).
      { change 2 with (2 ^ 1) at 1. apply Z.pow_le_mono_r; lia. }
      assert (H53 : 2 ^ 53 = 2 ^ 52 * 2) by reflexivity.
      nia.
  - apply Z.leb_gt in Hsign.
    assert (Hpow : 0 < 2 ^ (- p)) by (apply Z.pow_pos_nonneg; lia).
    apply inject_le_Qred. rewrite Z2Pos.id by exact Hpow.
    apply nearestEven_lower; [exact Hd | nia].
Qed.

Lemma roundPositive_nonneg (n d : Z) :
  0 < n -> 0 < d ->
  match roundPositive n d with
  | Some r => (0 <= r)%Q
  | None => True
  end.
Proof.
  intros Hn Hd.
  pose proof (roundPositive_lower n d 0 Hn Hd ltac:(lia) ltac:(lia)) as H.
  exact H.
Qed.

Close Scope Z_scope.

Lemma Qle_num_den (q : Q) (t : Z) :
  (q <= inject_Z t)%Q <-> (Qnum q <= t * Zpos (Qden q))%Z.
Proof. unfold Qle. simpl. lia. Qed.

Lemma Qge_num_den (q : Q) (t : Z) :
  (inject_Z t <= q)%Q <-> (t * Zpos (Qden q) <= Qnum q)%Z.
Proof. unfold Qle. simpl. lia. Qed.

(** A double at or below an integer time value rounds to one. *)
Lemma toDouble_upper (q : Q) (t : Z) :
  (Z.abs t < 2 ^ 53)%Z -> (q <= inject_Z t)%Q -> ge (ofZ t) (toDouble q) = true.
Proof.
  intros Ht Hq. apply Qle_num_den in Hq.
  unfold toDouble, ofZ.
  destruct (Qnum q) as [| n | n] eqn:Hnum.
  - simpl. apply Qle_bool_iff. rewrite <- Zle_Qle. lia.
  - destruct (roundPositive_upper (Zpos n) (Zpos (Qden q)) t) as (r & -> & Hr);
      try lia.
    simpl. now apply Qle_bool_iff.
  - destruct (Z_lt_le_dec t 0) as [Hneg | Hpos].
    + pose proof (roundPositive_lower (Zpos n) (Zpos (Qden q)) (- t)
                    ltac:(lia) ltac:(lia) ltac:(lia) ltac:(lia)) as Hr.
      destruct (roundPositive _ _) as [r |]; simpl; [| reflexivity].
      apply Qle_bool_iff.
      apply Qopp_le_compat in Hr. rewrite <- inject_Z_opp, Z.opp_involutive in Hr.
      exact Hr.
    + pose proof (roundPositive_nonneg (Zpos n) (Zpos (Qden q))
                    ltac:(lia) ltac:(lia)) as Hr.
      destruct (roundPositive _ _) as [r |]; simpl; [| reflexivity].
      apply Qle_bool_iff.
      apply Qopp_le_compat in Hr.
      apply Qle_trans with (y := (- 0)%Q); [exact Hr |].
      change (- 0)%Q with (inject_Z 0). rewrite <- Zle_Qle. exact Hpos.
Qed.

Lemma Qle_bool_false (x y : Q) : (y < x)%Q -> Qle_bool x y = false.
Proof.
  intros Hlt. destruct (Qle_bool x y) eqn:Hle; [| reflexivity].
  apply Qle_bool_iff in Hle. exfalso. revert Hle. now apply Qlt_not_le.
Qed.

(** A double at least a millisecond above an integer time value rounds
    to one, or to infinity. *)
Lemma toDouble_lower (q : Q) (t : Z) :
  (Z.abs t < 2 ^ 53)%Z -> (inject_Z (t + 1) <= q)%Q -> ge (ofZ t) (toDouble q) = false.
Proof.
  intros Ht Hq. apply Qge_num_den in Hq.
  assert (Hnext : (inject_Z t < inject_Z (t + 1))%Q) by (rewrite <- Zlt_Qlt; lia).
  unfold toDouble, ofZ.
  destruct (Qnum q) as [| n | n] eqn:Hnum.
  - simpl. apply Qle_bool_false. change 0%Q with (inject_Z 0).
    rewrite <- Zlt_Qlt. nia.
  - destruct (Z_lt_le_dec t 0) as [Hneg | Hpos].
    + pose proof (roundPositive_nonneg (Zpos n) (Zpos (Qden q))
                    ltac:(lia) ltac:(lia)) as Hr.
      destruct (roundPositive _ _) as [r |]; simpl; [| reflexivity].
      apply Qle_bool_false.
      apply Qlt_le_trans with (y := 0%Q); [| exact Hr].
      change 0%Q with (inject_Z 0). rewrite <- Zlt_Qlt. exact Hneg.
    + pose proof (roundPositive_lower (Zpos n) (Zpos (Qden q)) (t + 1)
                    ltac:(lia) ltac:(lia) ltac:(lia) ltac:(lia)) as Hr.
      destruct (roundPositive _ _) as [r |]; simpl; [| reflexivity].
      apply Qle_bool_false.
      now apply Qlt_le_trans with (y := inject_Z (t + 1)).
  - destruct (roundPositive_upper (Zpos n) (Zpos (Qden q)) (- (t + 1)))
      as (r & -> & Hr); try lia.
    simpl. apply Qle_bool_false.
    apply Qopp_le_compat in Hr. rewrite <- inject_Z_opp, Z.opp_involutive in Hr.
    now apply Qlt_le_trans with (y := inject_Z (t + 1)).
Qed.

End Rounding.

(** ** Token expiry *)

Section TokenExpiry.

Import JS.

Lemma isTokenExpired_claim (token : string) (now : Z) :
  isTokenExpired token now =
  match expiryClaim token with
  | Some claim => ge (ofZ now) (mul (ToNumber claim) (ofZ 1000))
  | None => true
  end.
Proof.
  unfold isTokenExpired, expiryClaim, decodePayload, payloadSegment.
  destruct (atob _) as [text |]; simpl; [| reflexivity].
  destruct (JSON_parse text) as [payload |]; simpl; [| reflexivity].
  destruct (getMember payload _); reflexivity.
Qed.

Lemma ownProperty_absent (properties : list (jsstring * JsValue)) (name : jsstring) :
  (forall v, ~ In (name, v) properties) ->
  ownProperty properties name = JUndefined.
Proof.
  unfold ownProperty. generalize JUndefined as found.
  induction properties as [| [k v] ps IH]; intros found Habsent; simpl.
  - reflexivity.
  - case_bool_decide as Hk; simpl in Hk.
    + subst k. exfalso. apply (Habsent v). now left.
    + apply IH. intros v' Hin. apply (Habsent v'). now right.
Qed.

(** C8, as amended.  [exp] is read as a double and so is its product
    with 1000.  For a current time that is a time value (a whole number
    of milliseconds below 2^53 in size), a token whose payload decodes
    and holds a numeric [exp] is expired when [exp] seconds are at or
    before the current time, and not expired when they are a
    millisecond or more after it; when [exp] is a whole number of
    seconds the token is expired exactly when [exp] seconds are at or
    before the current time.  A string whose payload segment does not
    decode (no second segment, not base64, not JSON) or decodes to
    [null] is expired. *)
Theorem isTokenExpired_spec (token : string) (now : Z) :
  (forall e : Q,
     expiryClaim token = Some (JNumber (Finite e)) ->
     (Z.abs now < 2 ^ 53)%Z ->
     (e * 1000 <= inject_Z now)%Q -> isTokenExpired token now = true) /\
  (forall e : Q,
     expiryClaim token = Some (JNumber (Finite e)) ->
     (Z.abs now < 2 ^ 53)%Z ->
     (inject_Z (now + 1) <= e * 1000)%Q -> isTokenExpired token now = false) /\
  (forall seconds : Z,
     expiryClaim token = Some (JNumber (ofZ seconds)) ->
     (Z.abs now < 2 ^ 53)%Z ->
     isTokenExpired token now = (seconds * 1000 <=? now)%Z) /\
  (decodePayload token = None -> isTokenExpired token now = true) /\
  (decodePayload token = Some JNull -> isTokenExpired token now = true).
Proof.
  rewrite isTokenExpired_claim.
  repeat split.
  - intros e -> Hnow Hpast. now apply toDouble_upper.
  - intros e -> Hnow Hfuture. now apply toDouble_lower.
  - intros seconds -> Hnow. simpl.
    destruct (Z.leb_spec (seconds * 1000) now) as [Hpast | Hfuture].
    + apply (toDouble_upper _ now Hnow).
      rewrite <- inject_Z_mult, <- Zle_Qle. exact Hpast.
    + apply (toDouble_lower _ now Hnow).
      rewrite <- inject_Z_mult, <- Zle_Qle. lia.
  - unfold expiryClaim. now intros ->.
  - unfold expiryClaim. now intros ->.
Qed.

Lemma isTokenExpired_spec_witness :
  expiryClaim Scenario.tokenWithExp = Some (JNumber (Finite (inject_Z 1700000000))) /\
  isTokenExpired Scenario.tokenWithExp 1700000000001 = true /\
  isTokenExpired Scenario.tokenWithExp 1699999999999 = false /\
  isTokenExpired Scenario.tokenWithExp 1700000000000 = true /\
  decodePayload Scenario.noToken = None /\
  isTokenExpired Scenario.noToken 1700000000001 = true.
Proof.
  assert (Hclaim : expiryClaim Scenario.tokenWithExp
                   = Some (JNumber (Finite (inject_Z 1700000000))))
    by (vm_compute; reflexivity).
  assert (Hnone : decodePayload Scenario.noToken = None)
    by (vm_compute; reflexivity).
  split; [exact Hclaim |].
  split.
  { apply (isTokenExpired_spec Scenario.tokenWithExp 1700000000001)
      with (e := inject_Z 1700000000); [exact Hclaim | reflexivity |].
    vm_compute. discriminate. }
  split.
  { apply (isTokenExpired_spec Scenario.tokenWithExp 1699999999999)
      with (e := inject_Z 1700000000); [exact Hclaim | reflexivity |].
    vm_compute. discriminate. }
  split.
  { destruct (isTokenExpired_spec Scenario.tokenWithExp 1700000000000)
      as (_ & _ & Hwhole & _).
    exact (Hwhole 1700000000%Z Hclaim eq_refl). }
  split; [exact Hnone |].
  destruct (isTokenExpired_spec Scenario.noToken 1700000000001)
    as (_ & _ & _ & Hfail & _).
  exact (Hfail Hnone).
Defined.

(** C8 as stated fails.  Only the second segment is decoded, so a
    string that is no token is not expired when that segment decodes to
    JSON without [exp]: two segments with the payload [1], and the
    payload [{}] between segments that are not base64.  And an [exp]
    written 1700000000.0000001, which is after the time 1700000000000,
    is read as the double 1700000000, so the token is expired at that
    time. *)
Lemma isTokenExpired_not_fail_closed :
  decodePayload Scenario.twoSegments = Some (JNumber (ofZ 1)) /\
  isTokenExpired Scenario.twoSegments 1700000000001 = false /\
  decodePayload Scenario.strangeSegments = Some (JObject []) /\
  isTokenExpired Scenario.strangeSegments 1700000000001 = false /\
  (exists written,
     parseNumber (units "1700000000.0000001") = Some (written, []) /\
     (inject_Z 1700000000000 < written * 1000)%Q) /\
  expiryClaim Scenario.tokenFractionalExp = Some (JNumber (ofZ 1700000000)) /\
  isTokenExpired Scenario.tokenFractionalExp 1700000000000 = true.
Proof.
  repeat split; try (vm_compute; reflexivity).
  eexists. split; vm_compute; reflexivity.
Qed.

(** C10, as amended.  A token whose payload decodes to a JSON value
    other than [null] that has no member named [exp] is never expired:
    the claim reads as [undefined], its product with 1000 is [NaN], and
    no number is greater than or equal to [NaN]. *)
Theorem isTokenExpired_without_exp (token : string) (now : Z) (payload : JsValue) :
  decodePayload token = Some payload ->
  lacksExp payload ->
  expiryClaim token = Some JUndefined /\
  mul (ToNumber JUndefined) (ofZ 1000) = NaN /\
  isTokenExpired token now = false.
Proof.
  intros Hdecode Hlacks.
  assert (Hclaim : expiryClaim token = Some JUndefined).
  { unfold expiryClaim. rewrite Hdecode. simpl.
    destruct payload; simpl in *; try reflexivity; try contradiction.
    now rewrite ownProperty_absent. }
  split; [exact Hclaim |]. split; [reflexivity |].
  rewrite isTokenExpired_claim, Hclaim. reflexivity.
Qed.

Lemma isTokenExpired_without_exp_witness :
  decodePayload Scenario.tokenWithoutExp
  = Some (JObject [(units "sub", JString (units "1"))]) /\
  lacksExp (JObject [(units "sub", JString (units "1"))]) /\
  isTokenExpired Scenario.tokenWithoutExp 1700000000001 = false.
Proof.
  assert (Hdecode : decodePayload Scenario.tokenWithoutExp
                    = Some (JObject [(units "sub", JString (units "1"))]))
    by (vm_compute; reflexivity).
  assert (Hlacks : lacksExp (JObject [(units "sub", JString (units "1"))])).
  { intros v [H | []]. vm_compute in H. discriminate H. }
  split; [exact Hdecode |]. split; [exact Hlacks |].
  apply (isTokenExpired_without_exp _ 1700000000001 _ Hdecode Hlacks).
Defined.

(** C10 as stated fails: the payloads [null], an object whose [exp] is
    [null], and an object whose [exp] is a string are valid JSON
    without a numeric [exp], and the tokens that carry them are
    expired.  Reading [exp] of [null] throws; [null * 1000] is [0] and
    a string of digits times 1000 is a number, not [NaN]. *)
Lemma isTokenExpired_non_numeric_exp :
  decodePayload Scenario.tokenNull = Some JNull /\
  isTokenExpired Scenario.tokenNull 1700000000001 = true /\
  decodePayload Scenario.tokenExpNull = Some (JObject [(units "exp", JNull)]) /\
  mul (ToNumber JNull) (ofZ 1000) = ofZ 0 /\
  isTokenExpired Scenario.tokenExpNull 1700000000001 = true /\
  decodePayload Scenario.tokenExpString
  = Some (JObject [(units "exp", JString (units "1700000000"))]) /\
  isTokenExpired Scenario.tokenExpString 1700000000001 = true.
Proof. repeat split; vm_compute; reflexivity. Qed.

End TokenExpiry.

(** ** More on the token store *)

Section TokenStoreMore.

(** X1.  What [saveTokens] stores is what the getters read back, no
    other key of the storage changes, and a second save replaces the
    first. *)
Theorem saveTokens_roundtrip (a r a' r' : string) (ls : Storage) :
  getAccessToken (saveTokens a r ls) = Some a /\
  getRefreshToken (saveTokens a r ls) = Some r /\
  (forall name,
     name <> key ACCESS_TOKEN -> name <> key REFRESH_TOKEN ->
     saveTokens a r ls !! name = ls !! name) /\
  saveTokens a' r' (saveTokens a r ls) = saveTokens a' r' ls.
Proof.
  destruct (saveTokens_get a r ls) as [Ha Hr].
  split; [exact Ha |]. split; [exact Hr |]. split.
  - intros name Hna Hnr. unfold saveTokens.
    now rewrite !lookup_insert_ne by congruence.
  - apply map_eq; intros name. unfold saveTokens.
    rewrite !lookup_insert. repeat case_decide; reflexivity.
Qed.

Lemma saveTokens_roundtrip_witness :
  "theme" <> key ACCESS_TOKEN /\ "theme" <> key REFRESH_TOKEN /\
  saveTokens "token-1" EmptyString {["theme" := "dark"]} !! "theme" = Some "dark".
Proof.
  assert (Ha : "theme" <> key ACCESS_TOKEN) by discriminate.
  assert (Hr : "theme" <> key REFRESH_TOKEN) by discriminate.
  split; [exact Ha |]. split; [exact Hr |].
  destruct (saveTokens_roundtrip "token-1" EmptyString "token-1" EmptyString
              {["theme" := "dark"]}) as (_ & _ & Hother & _).
  rewrite (Hother "theme" Ha Hr). reflexivity.
Defined.

(** X2.  [clearTokens] empties exactly its three slots: every other
    key of the storage keeps its value, and clearing after a save is
    the same as clearing. *)
Theorem clearTokens_scope (a r : string) (ls : Storage) (name : string) :
  clearTokens ls !! name
  = (if bool_decide (name = key ACCESS_TOKEN \/ name = key REFRESH_TOKEN
                     \/ name = key USER_DATA)
     then None else ls !! name) /\
  clearTokens (saveTokens a r ls) = clearTokens ls.
Proof.
  split.
  - unfold clearTokens. rewrite !lookup_delete.
    case_bool_decide as Hk; repeat case_decide; try reflexivity;
      exfalso; try (apply Hk; auto; fail); destruct Hk as [? | [? | ?]]; congruence.
  - apply map_eq; intros k. unfold clearTokens, saveTokens.
    rewrite !lookup_delete, ?lookup_insert.
    repeat case_decide; try reflexivity; rewrite ?lookup_insert;
      repeat case_decide; try reflexivity; congruence.
Qed.

End TokenStoreMore.

(** ** More on the credential injector *)

Section CredentialInjectorMore.

(** X3.  With a non-empty access token in the store the auth link sets
    the header whatever the context carried before, with none (or the
    empty one) it hands the context's headers on unchanged; it never
    drops a header, and applying it twice is applying it once. *)
Theorem authLink_context (ls : Storage) (headers : gmap string string) :
  (forall t, getAccessToken ls = Some t -> t <> EmptyString ->
     AuthLink.authLink ls headers !! "authorization" = Some (bearer t)) /\
  (getAccessToken ls = None \/ getAccessToken ls = Some EmptyString ->
     AuthLink.authLink ls headers = headers) /\
  (forall name, is_Some (headers !! name) ->
     is_Some (AuthLink.authLink ls headers !! name)) /\
  AuthLink.authLink ls (AuthLink.authLink ls headers) = AuthLink.authLink ls headers.
Proof.
  unfold AuthLink.authLink, AuthLink.truthy, bearer.
  destruct (getAccessToken ls) as [t |] eqn:Htoken.
  - destruct (String.eqb_spec t EmptyString) as [-> | Hne]; simpl.
    + repeat split; auto. now intros t [= <-] Hne.
    + repeat split.
      * intros t' [= <-] _. apply lookup_insert_eq.
      * intros [H | [= H]]; [discriminate H | now destruct Hne].
      * intros name Hsome. rewrite lookup_insert. now case_decide.
      * apply insert_insert_eq.
  - repeat split; auto. intros t H. discriminate H.
Qed.

Lemma authLink_context_witness :
  getAccessToken (localStorage Scenario.signedInWorld) = Some "token-1" /\
  AuthLink.authLink (localStorage Scenario.signedInWorld)
    {["authorization" := "Basic abc"]} !! "authorization"
  = Some "Bearer token-1" /\
  AuthLink.authLink ∅ {["authorization" := "Basic abc"]}
  = {["authorization" := "Basic abc"]}.
Proof.
  split; [reflexivity |].
  split.
  - apply (authLink_context (localStorage Scenario.signedInWorld)
             {["authorization" := "Basic abc"]});
      [reflexivity | discriminate].
  - apply (authLink_context ∅ {["authorization" := "Basic abc"]}).
    left. reflexivity.
Defined.

End CredentialInjectorMore.

(** ** More on token expiry *)

Section TokenExpiryMore.

Import JS Lifecycle.

Lemma units_app (a b : string) : units (a +:+ b) = units a ++ units b.
Proof.
  unfold units. induction a as [| c a IH]; simpl; [reflexivity |].
  now rewrite IH.
Qed.

Lemma splitFrom_no_sep (sep : N) (l current : jsstring) :
  ~ In sep l -> splitFrom sep l current = [rev current ++ l].
Proof.
  revert current. induction l as [| c l IH]; intros current Hno; simpl.
  - now rewrite app_nil_r.
  - destruct (N.eqb_spec c sep) as [-> | Hne].
    + exfalso. apply Hno. now left.
    + rewrite IH by (intros Hin; apply Hno; now right).
      simpl. now rewrite <- app_assoc.
Qed.

Lemma splitFrom_sep (sep : N) (l1 l2 current : jsstring) :
  ~ In sep l1 ->
  splitFrom sep (l1 ++ sep :: l2) current
  = (rev current ++ l1) :: splitFrom sep l2 [].
Proof.
  revert current. induction l1 as [| c l1 IH]; intros current Hno; simpl.
  - rewrite N.eqb_refl. now rewrite app_nil_r.
  - destruct (N.eqb_spec c sep) as [-> | Hne].
    + exfalso. apply Hno. now left.
    + rewrite IH by (intros Hin; apply Hno; now right).
      simpl. now rewrite <- app_assoc.
Qed.

Lemma payloadSegment_jwt (header payload signature : string) :
  dotFree header -> dotFree payload ->
  payloadSegment (jwt header payload signature) = units payload.
Proof.
  intros Hh Hp. unfold payloadSegment, jwt, split.
  rewrite !units_app. change (units ".") with [46%N]. simpl.
  rewrite (splitFrom_sep 46 (units header) _ []) by exact Hh.
  rewrite (splitFrom_sep 46 (units payload) _ []) by exact Hp.
  reflexivity.
Qed.

(** X4.  A string without a dot has no payload segment: [atob] is
    given [undefined], fails, and the token counts as expired at every
    time.  The empty string is such a string. *)
Theorem isTokenExpired_without_dot (token : string) (now : Z) :
  dotFree token -> isTokenExpired token now = true.
Proof.
  intros Hno. rewrite isTokenExpired_claim.
  unfold expiryClaim, decodePayload, payloadSegment, split.
  rewrite splitFrom_no_sep by exact Hno. reflexivity.
Qed.

Lemma isTokenExpired_without_dot_witness :
  dotFree EmptyString /\ isTokenExpired EmptyString 0 = true.
Proof.
  assert (H : dotFree EmptyString) by (intros []).
  split; [exact H | exact (isTokenExpired_without_dot _ 0 H)].
Defined.

Lemma sextets_invalid (c : N) (l : jsstring) :
  In c l -> base64Index c = None -> sextets l = None.
Proof.
  intros Hin Hc. induction l as [| x l IH]; [destruct Hin |].
  simpl. destruct Hin as [-> | Hin].
  - now rewrite Hc.
  - rewrite (IH Hin). now destruct (base64Index x).
Qed.

Ltac case_literal :=
  repeat (match goal with
          | |- context [match ?q with xI _ => _ | xO _ => _ | xH => _ end] =>
              destruct q
          end; try reflexivity).

(** [stripPadding] by tests instead of patterns. *)
Lemma stripPadding_eq (l : jsstring) :
  stripPadding l =
  match rev l with
  | x :: r =>
      if (x =? 61)%N then
        match r with
        | y :: r' => if (y =? 61)%N then rev r' else rev r
        | [] => rev r
        end
      else l
  | [] => l
  end.
Proof.
  unfold stripPadding. destruct (rev l) as [| x r]; [reflexivity |].
  destruct (N.eqb_spec x 61) as [-> | Hx].
  - destruct r as [| y r']; [reflexivity |].
    destruct (N.eqb_spec y 61) as [-> | Hy]; [reflexivity |].
    destruct y as [| p]; [reflexivity |]. case_literal. now destruct Hy.
  - destruct x as [| p]; [reflexivity |]. case_literal. now destruct Hx.
Qed.

Lemma stripPadding_In (c : N) (l : jsstring) :
  In c l -> c <> 61%N -> In c (stripPadding l).
Proof.
  intros Hin Hne. rewrite stripPadding_eq.
  assert (Hrev : In c (rev l)) by now apply in_rev in Hin.
  destruct (rev l) as [| x r]; [exact Hin |].
  destruct (N.eqb_spec x 61) as [-> | Hx]; [| exact Hin].
  destruct Hrev as [E | Hrev]; [now destruct Hne |].
  destruct r as [| y r']; [destruct Hrev |].
  destruct (N.eqb_spec y 61) as [-> | Hy].
  - destruct Hrev as [E | Hrev]; [now destruct Hne |].
    now apply in_rev in Hrev.
  - now apply in_rev in Hrev.
Qed.

Lemma atob_invalid (c : N) (data : jsstring) :
  In c data -> base64Index c = None -> isAsciiWhitespace c = false ->
  c <> 61%N -> atob data = None.
Proof.
  intros Hin Hc Hws Hne. unfold atob, forgivingBase64Decode.
  set (d1 := filter _ data).
  assert (H1 : In c d1).
  { apply list_elem_of_In, list_elem_of_filter. split; [exact Hws |].
    now apply list_elem_of_In. }
  set (d2 := if (N.of_nat (length d1) mod 4 =? 0)%N then stripPadding d1 else d1).
  assert (H2 : In c d2).
  { unfold d2. destruct (_ =? 0)%N; [now apply stripPadding_In | exact H1]. }
  destruct (_ =? 1)%N; [reflexivity |].
  now rewrite (sextets_invalid c d2 H2 Hc).
Qed.

(** X5.  A payload segment that holds a character outside the base64
    alphabet of [atob] (letters, digits, [+] and [/]), other than
    white space and [=], makes the token count as expired at every
    time, whatever its payload says.  The [-] and [_] of base64url, in
    which tokens are issued, are such characters. *)
Theorem isTokenExpired_foreign_character (token : string) (now : Z) (c : N) :
  In c (payloadSegment token) ->
  base64Index c = None -> isAsciiWhitespace c = false -> c <> 61%N ->
  isTokenExpired token now = true.
Proof.
  intros Hin Hc Hws Hne. rewrite isTokenExpired_claim.
  unfold expiryClaim, decodePayload.
  now rewrite (atob_invalid c _ Hin Hc Hws Hne).
Qed.

Lemma isTokenExpired_foreign_character_witness :
  In 45%N (payloadSegment Samples.tokenBase64url) /\
  isTokenExpired Samples.tokenBase64url 1700000000001 = true /\
  isTokenExpired Samples.tokenBase64 1700000000001 = false.
Proof.
  assert (Hin : In 45%N (payloadSegment Samples.tokenBase64url)).
  { vm_compute. repeat first [left; reflexivity | right]. }
  split; [exact Hin |]. split.
  - apply (isTokenExpired_foreign_character _ _ 45 Hin);
      [reflexivity | reflexivity | discriminate].
  - vm_compute. reflexivity.
Defined.

Lemma ge_later (now later : Z) (x : number) :
  (now <= later)%Z -> ge (ofZ now) x = true -> ge (ofZ later) x = true.
Proof.
  intros Hle. destruct x as [| negative | q]; simpl; trivial.
  rewrite !Qle_bool_iff. intros Hq.
  eapply Qle_trans; [exact Hq |]. now rewrite <- Zle_Qle.
Qed.

(** X6.  Expiry is monotone in time: a token that counts as expired at
    one time counts as expired at every later time. *)
Theorem isTokenExpired_later (token : string) (now later : Z) :
  (now <= later)%Z ->
  isTokenExpired token now = true -> isTokenExpired token later = true.
Proof.
  intros Hle. rewrite !isTokenExpired_claim.
  destruct (expiryClaim token) as [claim |]; [| trivial].
  now apply ge_later.
Qed.

Lemma isTokenExpired_later_witness :
  (1700000000000 <= 1800000000000)%Z /\
  isTokenExpired Scenario.tokenWithExp 1700000000000 = true /\
  isTokenExpired Scenario.tokenWithExp 1800000000000 = true.
Proof.
  assert (Hle : (1700000000000 <= 1800000000000)%Z) by lia.
  assert (Hnow : isTokenExpired Scenario.tokenWithExp 1700000000000 = true)
    by (vm_compute; reflexivity).
  split; [exact Hle |]. split; [exact Hnow |].
  exact (isTokenExpired_later _ _ _ Hle Hnow).
Defined.

(** X7.  Only the payload segment counts: two tokens with the same
    payload and any headers and signatures are expired at the same
    times.  Nothing is verified against the signature. *)
Theorem isTokenExpired_payload_only
  (header header' payload signature signature' : string) (now : Z) :
  dotFree header -> dotFree header' -> dotFree payload ->
  payloadSegment (jwt header payload signature) = units payload /\
  isTokenExpired (jwt header payload signature) now
  = isTokenExpired (jwt header' payload signature') now.
Proof.
  intros Hh Hh' Hp.
  split; [now apply payloadSegment_jwt |].
  rewrite !isTokenExpired_claim. unfold expiryClaim, decodePayload.
  now rewrite !payloadSegment_jwt.
Qed.

Lemma isTokenExpired_payload_only_witness :
  dotFree "eyJhbGciOiJIUzI1NiIsInR5cCI6IkpXVCJ9" /\
  dotFree "forged" /\
  dotFree "eyJleHAiOjE3MDAwMDAwMDB9" /\
  isTokenExpired
    (jwt "eyJhbGciOiJIUzI1NiIsInR5cCI6IkpXVCJ9" "eyJleHAiOjE3MDAwMDAwMDB9" "c2ln")
    1699999999999
  = isTokenExpired (jwt "forged" "eyJleHAiOjE3MDAwMDAwMDB9" "x.y.z") 1699999999999.
Proof.
  assert (H1 : dotFree "eyJhbGciOiJIUzI1NiIsInR5cCI6IkpXVCJ9")
    by (vm_compute; intuition discriminate).
  assert (H2 : dotFree "forged") by (vm_compute; intuition discriminate).
  assert (H3 : dotFree "eyJleHAiOjE3MDAwMDAwMDB9")
    by (vm_compute; intuition discriminate).
  split; [exact H1 |]. split; [exact H2 |]. split; [exact H3 |].
  apply (isTokenExpired_payload_only _ _ _ _ _ _ H1 H2 H3).
Defined.

End TokenExpiryMore.

(** ** More on the session state *)

Section SessionStateMore.

Lemma selectIsAuthenticated_false (s : AuthState) :
  selectIsAuthenticated s = false <->
  status s <> AUTHENTICATED \/ user s = None.
Proof.
  rewrite <- not_true_iff_false, selectIsAuthenticated_user.
  destruct (decide (status s = AUTHENTICATED)) as [Hs | Hs];
    destruct (user s) as [u |]; split; intros H; try tauto.
  all: try (exfalso; apply H; split; [exact Hs | discriminate]).
  all: try (intros [_ Hu]; destruct H as [H | H]; [tauto | discriminate H]).
Qed.

(** X8.  What signs a session in: from a state that does not count as
    authenticated, an action makes it count exactly when it is
    [setUser], or [setStatus(AUTHENTICATED)] on a state that holds a
    user. *)
Theorem reducer_signs_in (s : AuthState) (a : Action) :
  selectIsAuthenticated s = false ->
  (selectIsAuthenticated (reducer s a) = true <->
   (exists u, a = SetUser u) \/ (a = SetStatus AUTHENTICATED /\ user s <> None)).
Proof.
  intros Hout. apply selectIsAuthenticated_false in Hout.
  rewrite selectIsAuthenticated_user.
  destruct a as [u | t | | e | p]; simpl.
  - split; [intros _; left; now exists u | intros _; split; congruence].
  - split; [intros [Hs Hu]; tauto |].
    intros [[u H] | [H _]]; discriminate H.
  - split; [intros [H _]; discriminate H |].
    intros [[u H] | [H _]]; discriminate H.
  - split; [intros [H _]; discriminate H |].
    intros [[u H] | [H _]]; discriminate H.
  - split.
    + intros [-> Hu]. right. now split.
    + intros [[u H] | [[= ->] Hu]]; [discriminate H | now split].
Qed.

Lemma reducer_signs_in_witness :
  selectIsAuthenticated initialState = false /\
  selectIsAuthenticated (reducer initialState (SetUser Scenario.alice)) = true /\
  selectIsAuthenticated (reducer initialState (SetStatus AUTHENTICATED)) = false.
Proof.
  split; [reflexivity |]. split.
  - apply (reducer_signs_in initialState (SetUser Scenario.alice) eq_refl).
    left. now exists Scenario.alice.
  - apply not_true_iff_false.
    rewrite (reducer_signs_in initialState (SetStatus AUTHENTICATED) eq_refl).
    intros [[u H] | [_ H]]; [discriminate H | now apply H].
Defined.

(** X9.  What signs a session out: from a state that counts as
    authenticated, an action ends that exactly when it is [clearAuth],
    [setError], or [setStatus] with a status other than
    [AUTHENTICATED]; [setTokens] and [setUser] never do. *)
Theorem reducer_signs_out (s : AuthState) (a : Action) :
  selectIsAuthenticated s = true ->
  (selectIsAuthenticated (reducer s a) = false <->
   a = ClearAuth \/ (exists e, a = SetError e)
   \/ (exists p, a = SetStatus p /\ p <> AUTHENTICATED)).
Proof.
  intros Hin. apply selectIsAuthenticated_user in Hin. destruct Hin as [Hs Hu].
  rewrite selectIsAuthenticated_false.
  destruct a as [u | t | | e | p]; simpl.
  - split; [intros [H | H]; [now destruct H | discriminate H] |].
    intros [H | [[e H] | (p & H & _)]]; discriminate H.
  - split; [intros [H | H]; tauto |].
    intros [H | [[e H] | (p & H & _)]]; discriminate H.
  - split; [now left | intros _; now right].
  - split; [intros _; right; left; now exists e | intros _; now left].
  - split.
    + intros [H | H]; [| tauto]. right. right. now exists p.
    + intros [H | [[e H] | (p' & [= <-] & Hp)]]; try discriminate H. now left.
Qed.

Lemma reducer_signs_out_witness :
  selectIsAuthenticated (auth Scenario.signedInWorld) = true /\
  selectIsAuthenticated (reducer (auth Scenario.signedInWorld) (SetStatus LOADING))
  = false.
Proof.
  split; [reflexivity |].
  apply (reducer_signs_out (auth Scenario.signedInWorld) (SetStatus LOADING) eq_refl).
  right. right. exists LOADING. split; [reflexivity | discriminate].
Defined.

End SessionStateMore.

(** ** More on the session actions *)

Section SessionActionsMore.

Import Lifecycle.

#[local] Arguments execute {D} op ex w : simpl never.

Ltac run_session :=
  unfold final, outcome, attempt, loginUser, registerUser, logoutUser,
    initializeAuth, try_catch, bind, mutate, query, readStorage, field;
  simpl; rewrite ?execute_run; unfold afterExchange.

Lemma loginUser_accepts
  (credentials : LoginCredentials) (ex : Exchange AuthPayload) (p : AuthPayload)
  (w : World) :
  succeeds ex p ->
  auth (final (loginUser credentials ex) w)
  = {| user := Some (payload_user p);
       accessToken := Some (payload_accessToken p);
       refreshToken := Some EmptyString;
       status := AUTHENTICATED;
       error := error (auth w) |} /\
  localStorage (final (loginUser credentials ex) w)
  = saveTokens (payload_accessToken p) EmptyString (localStorage w).
Proof.
  intros [Hlink Hsettled]. run_session. unfold tearsDown.
  rewrite Hsettled, Hlink. simpl. now split.
Qed.

Lemma attempt_normal (a : Attempt) (ex : Exchange AuthPayload) (w : World) :
  exists r, outcome (attempt a ex) w = Normal r.
Proof.
  destruct a as [c | d]; run_session;
    destruct (settled ex) as [[p |] [| e errors] | err]; simpl;
    eexists; reflexivity.
Qed.

(** X10.  A login that the server accepts returns the user, stores the
    access token and an empty refresh token in the token store and in
    the session state alike, and sets the user and the status
    [AUTHENTICATED]; an error recorded earlier stays in the state. *)
Theorem loginUser_success
  (credentials : LoginCredentials) (ex : Exchange AuthPayload) (p : AuthPayload)
  (w : World) :
  succeeds ex p ->
  outcome (loginUser credentials ex) w = Normal (Fulfilled (payload_user p)) /\
  auth (final (loginUser credentials ex) w)
  = {| user := Some (payload_user p);
       accessToken := Some (payload_accessToken p);
       refreshToken := Some EmptyString;
       status := AUTHENTICATED;
       error := error (auth w) |} /\
  localStorage (final (loginUser credentials ex) w)
  = saveTokens (payload_accessToken p) EmptyString (localStorage w).
Proof.
  intros [Hlink Hsettled]. run_session. unfold tearsDown.
  rewrite Hsettled, Hlink. simpl. repeat split.
Qed.

Lemma loginUser_success_witness :
  succeeds (Scenario.answered Samples.aliceLogin) Samples.aliceLogin /\
  status (auth (final (loginUser Scenario.credentials
                         (Scenario.answered Samples.aliceLogin))
                      Samples.failedBefore)) = AUTHENTICATED /\
  error (auth (final (loginUser Scenario.credentials
                        (Scenario.answered Samples.aliceLogin))
                     Samples.failedBefore))
  = Some {| error_type := INVALID_CREDENTIALS;
            error_message := "Invalid email or password" |}.
Proof.
  assert (H : succeeds (Scenario.answered Samples.aliceLogin) Samples.aliceLogin)
    by (split; reflexivity).
  split; [exact H |].
  destruct (loginUser_success Scenario.credentials _ _ Samples.failedBefore H)
    as (_ & Hauth & _).
  rewrite Hauth. split; reflexivity.
Defined.

(** X11.  A login or register thunk never throws: it fulfils with the
    user exactly when the call resolves with data and no errors, and in
    every other case it rejects with a message. *)
Theorem attempt_outcome (a : Attempt) (ex : Exchange AuthPayload) (w : World) :
  (exists r, outcome (attempt a ex) w = Normal r) /\
  (forall u,
     outcome (attempt a ex) w = Normal (Fulfilled u) <->
     exists p, settled ex = Resolved (Some p) [] /\ u = payload_user p).
Proof.
  destruct a as [c | d]; run_session;
    destruct (settled ex) as [[p |] [| e errors] | err]; simpl;
    (split; [eexists; reflexivity |]); intros u; split;
    try (intros H; discriminate H);
    try (intros (p' & H & _); discriminate H).
  all: try (intros [= <-]; now exists p).
  all: intros (p' & [= <-] & ->); reflexivity.
Qed.

Lemma attempt_outcome_witness :
  outcome (attempt (LoginAttempt Scenario.credentials)
                   (Scenario.answered Samples.aliceLogin)) Scenario.freshWorld
  = Normal (Fulfilled Scenario.alice).
Proof.
  apply (attempt_outcome (LoginAttempt Scenario.credentials)
           (Scenario.answered Samples.aliceLogin) Scenario.freshWorld).
  exists Samples.aliceLogin. split; reflexivity.
Defined.

(** X12.  A response without data and without errors is reported like
    a transport failure: the attempt rejects with the message of the
    [TypeError], the status is [ERROR] with a [NETWORK_ERROR], and
    nothing is stored. *)
Theorem attempt_without_data (a : Attempt) (ex : Exchange AuthPayload) (w : World) :
  settled ex = Resolved None [] ->
  exists message,
    outcome (attempt a ex) w = Normal (RejectWithValue message) /\
    message <> EmptyString /\
    status (auth (final (attempt a ex) w)) = ERROR /\
    error (auth (final (attempt a ex) w))
    = Some {| error_type := NETWORK_ERROR; error_message := message |} /\
    (tearsDown ex = false ->
     localStorage (final (attempt a ex) w) = localStorage w /\
     sessionFields (auth (final (attempt a ex) w)) = sessionFields (auth w)).
Proof.
  intros Hsettled.
  destruct a as [c | d]; run_session; rewrite Hsettled; simpl;
    eexists; (split; [reflexivity |]); (split; [discriminate |]);
    (split; [reflexivity |]); (split; [reflexivity |]);
    intros ->; now split.
Qed.

Lemma attempt_without_data_witness :
  settled {| link_error := None; settled := Resolved None [] |}
  = (Resolved None [] : Settled AuthPayload) /\
  status (auth (final (attempt (LoginAttempt Scenario.credentials)
                         {| link_error := None; settled := Resolved None [] |})
                      Scenario.freshWorld)) = ERROR.
Proof.
  split; [reflexivity |].
  destruct (attempt_without_data (LoginAttempt Scenario.credentials)
              {| link_error := None; settled := Resolved None [] |}
              Scenario.freshWorld eq_refl)
    as (message & _ & _ & Hstatus & _).
  exact Hstatus.
Defined.

(** X13.  Registration never signs in and never stores a token, on any
    path: the token store, the user and both token fields are as
    before, or cleared when the error link was triggered. *)
Theorem registerUser_stores_nothing
  (registerData : RegisterData) (ex : Exchange AuthPayload) (w : World) :
  localStorage (final (registerUser registerData ex) w)
  = (if tearsDown ex then clearTokens (localStorage w) else localStorage w) /\
  sessionFields (auth (final (registerUser registerData ex) w))
  = (if tearsDown ex then (None, None, None) else sessionFields (auth w)) /\
  status (auth (final (registerUser registerData ex) w)) <> AUTHENTICATED.
Proof.
  run_session.
  destruct (settled ex) as [[p |] [| e errors] | err]; simpl;
    destruct (tearsDown ex); repeat split; discriminate.
Qed.

End SessionActionsMore.

(** ** Initialisation and the life of a session *)

Section SessionLife.

Import Lifecycle.

#[local] Arguments execute {D} op ex w : simpl never.

Ltac run_life :=
  unfold final, outcome, attempt, loginUser, registerUser, logoutUser,
    initializeAuth, try_catch, bind, mutate, query, readStorage, field;
  simpl; rewrite ?execute_run; unfold afterExchange.

Lemma truthy_nonempty (t : string) :
  t <> EmptyString -> AuthLink.truthy (Some t) = true.
Proof.
  intros Hne. unfold AuthLink.truthy.
  now destruct (String.eqb_spec t EmptyString).
Qed.

Lemma initializeAuth_accepts (ex : Exchange User) (me : User) (t : string) (w : World) :
  getAccessToken (localStorage w) = Some t -> t <> EmptyString ->
  succeeds ex me ->
  auth (final (initializeAuth ex) w)
  = {| user := Some me; accessToken := Some t; refreshToken := Some EmptyString;
       status := AUTHENTICATED; error := error (auth w) |}.
Proof.
  intros Htoken Hne [Hlink Hsettled]. run_life.
  rewrite Htoken, (truthy_nonempty t Hne). simpl. rewrite execute_run.
  unfold afterExchange, tearsDown. rewrite Hsettled, Hlink. reflexivity.
Qed.

(** X14.  With a non-empty access token in the token store and a
    [me] query that succeeds, initialisation sends that one query with
    the stored token as bearer credential, loads the token into the
    session state and sets the user and the status [AUTHENTICATED];
    the token store is left as it was. *)
Theorem initializeAuth_restores (ex : Exchange User) (me : User) (t : string) (w : World) :
  getAccessToken (localStorage w) = Some t -> t <> EmptyString ->
  succeeds ex me ->
  outcome (initializeAuth ex) w = Normal (Some me) /\
  auth (final (initializeAuth ex) w)
  = {| user := Some me; accessToken := Some t; refreshToken := Some EmptyString;
       status := AUTHENTICATED; error := error (auth w) |} /\
  localStorage (final (initializeAuth ex) w) = localStorage w /\
  network (final (initializeAuth ex) w)
  = network w ++ [{| req_operation := ME_QUERY;
                     req_headers := {["authorization" := bearer t]} |}].
Proof.
  intros Htoken Hne [Hlink Hsettled]. run_life.
  rewrite Htoken, (truthy_nonempty t Hne). simpl. rewrite execute_run.
  unfold afterExchange, tearsDown. rewrite Hsettled, Hlink. simpl.
  repeat split.
  unfold AuthLink.authLink. rewrite Htoken, (truthy_nonempty t Hne).
  now rewrite insert_empty.
Qed.

Lemma initializeAuth_restores_witness :
  getAccessToken (localStorage (startup (localStorage Scenario.signedInWorld)))
  = Some "token-1" /\
  auth (final (initializeAuth (Scenario.answered Scenario.alice))
              (startup (localStorage Scenario.signedInWorld)))
  = auth Scenario.signedInWorld.
Proof.
  split; [reflexivity |].
  destruct (initializeAuth_restores (Scenario.answered Scenario.alice)
              Scenario.alice "token-1"
              (startup (localStorage Scenario.signedInWorld)))
    as (_ & Hauth & _);
    [reflexivity | discriminate | split; reflexivity |].
  exact Hauth.
Defined.

(** X15.  With a non-empty access token in the token store and a [me]
    query that rejects or resolves without data, initialisation fails
    closed: it returns [null], empties the three slots and resets the
    session state. *)
Theorem initializeAuth_fails_closed (ex : Exchange User) (t : string) (w : World) :
  getAccessToken (localStorage w) = Some t -> t <> EmptyString ->
  ((exists err, settled ex = Rejected err)
   \/ (exists errors, settled ex = Resolved None errors)) ->
  outcome (initializeAuth ex) w = Normal None /\
  slotsCleared (localStorage (final (initializeAuth ex) w)) /\
  auth (final (initializeAuth ex) w) = signedOut.
Proof.
  intros Htoken Hne Hfail. run_life.
  rewrite Htoken, (truthy_nonempty t Hne). simpl. rewrite execute_run.
  destruct Hfail as [[err ->] | [errors ->]]; simpl;
    (split; [reflexivity |]); (split; [| reflexivity]);
    destruct (tearsDown ex); rewrite ?clearTokens_idemp;
    apply clearTokens_cleared.
Qed.

Lemma initializeAuth_fails_closed_witness :
  getAccessToken (localStorage Scenario.signedInWorld) = Some "token-1" /\
  auth (final (initializeAuth Scenario.offline) Scenario.signedInWorld) = signedOut /\
  getAccessToken
    (localStorage (final (initializeAuth Scenario.offline) Scenario.signedInWorld))
  = None.
Proof.
  split; [reflexivity |].
  destruct (initializeAuth_fails_closed Scenario.offline "token-1"
              Scenario.signedInWorld)
    as (_ & Hslots & Hauth);
    [reflexivity | discriminate | left; eexists; reflexivity |].
  split; [exact Hauth | exact (Hslots ACCESS_TOKEN)].
Defined.

(** X16.  Initialisation never throws, and it returns a user exactly
    when a non-empty access token is stored and the [me] query resolves
    with data; errors that come with the data are not looked at. *)
Theorem initializeAuth_outcome (ex : Exchange User) (w : World) :
  (exists r, outcome (initializeAuth ex) w = Normal r) /\
  (forall me,
     outcome (initializeAuth ex) w = Normal (Some me) <->
     exists t errors,
       getAccessToken (localStorage w) = Some t /\ t <> EmptyString /\
       settled ex = Resolved (Some me) errors).
Proof.
  run_life.
  destruct (getAccessToken (localStorage w)) as [t |] eqn:Htoken; simpl.
  - destruct (String.eqb_spec t EmptyString) as [-> | Hne]; simpl.
    + split; [eexists; reflexivity |].
      intros me. split; [intros H; discriminate H |].
      intros (t & errors & [= <-] & Hne & _). now destruct Hne.
    + rewrite execute_run.
      destruct (settled ex) as [[u |] errors | err]; simpl;
        (split; [eexists; reflexivity |]); intros me; split;
        try (intros H; discriminate H);
        try (intros (t' & errors' & _ & _ & H); discriminate H).
      * intros [= <-]. now exists t, errors.
      * intros (t' & errors' & _ & _ & [= <- _]). reflexivity.
  - split; [eexists; reflexivity |].
    intros me. split; [intros H; discriminate H |].
    intros (t & errors & H & _). discriminate H.
Qed.

Lemma initializeAuth_outcome_witness :
  outcome (initializeAuth (Scenario.answered Scenario.alice)) Scenario.signedInWorld
  = Normal (Some Scenario.alice).
Proof.
  apply (initializeAuth_outcome (Scenario.answered Scenario.alice)
           Scenario.signedInWorld).
  exists "token-1", []. split; [reflexivity |]. split; [discriminate | reflexivity].
Defined.

(** X17.  The token store and the session state keep the same access
    token: if they agree before, they agree after every session
    action and after the error link, whatever the exchange. *)
Theorem inSync_preserved (w : World) :
  inSync w ->
  (forall a ex, inSync (final (attempt a ex) w)) /\
  (forall ex, inSync (final (logoutUser ex) w)) /\
  (forall ex, inSync (final (initializeAuth ex) w)) /\
  (forall r, inSync (final (errorLink r) w)).
Proof.
  unfold inSync. intros Hsync.
  assert (Hclear : forall ls, getAccessToken (clearTokens ls) = None)
    by (intros ls; apply (clearTokens_lookup ls ACCESS_TOKEN)).
  repeat split.
  - intros a ex. destruct a as [c | d]; run_life;
      destruct (settled ex) as [[p |] [| e errors] | err]; simpl;
      destruct (tearsDown ex); simpl; rewrite ?Hclear; try assumption;
      try reflexivity; apply saveTokens_get.
  - intros ex. unfold final. rewrite logoutUser_run. simpl. apply Hclear.
  - intros ex. run_life.
    destruct (getAccessToken (localStorage w)) as [t |] eqn:Htoken; simpl;
      [| now rewrite Htoken].
    destruct (negb (String.eqb t EmptyString)); simpl; [| now rewrite Htoken].
    rewrite execute_run.
    destruct (settled ex) as [[u |] errors | err]; simpl;
      destruct (tearsDown ex); simpl; rewrite ?Hclear, ?Htoken; reflexivity.
  - intros r. unfold final. rewrite errorLink_run. simpl.
    destruct (match graphQLErrors r with Some _ => _ | None => _ end);
      [apply Hclear | exact Hsync].
Qed.

Lemma inSync_preserved_witness :
  inSync Scenario.freshWorld /\
  inSync (final (attempt (LoginAttempt Scenario.credentials)
                   (Scenario.answered Samples.aliceLogin))
                Scenario.freshWorld).
Proof.
  assert (H : inSync Scenario.freshWorld) by reflexivity.
  split; [exact H |].
  apply (inSync_preserved Scenario.freshWorld H).
Defined.

End SessionLife.

(** ** Sessions across actions *)

Section SessionComposition.

Import Lifecycle.

#[local] Arguments execute {D} op ex w : simpl never.

Ltac run_all :=
  unfold final, outcome, attempt, loginUser, registerUser, logoutUser,
    initializeAuth, try_catch, bind, mutate, query, readStorage, field;
  simpl; rewrite ?execute_run; unfold afterExchange.

Lemma clearTokens_unused (ls : Storage) : unusedSlotsEmpty (clearTokens ls).
Proof.
  split; [left; apply (clearTokens_lookup ls REFRESH_TOKEN)
         | apply (clearTokens_lookup ls USER_DATA)].
Qed.

Lemma saveTokens_unused (a : string) (ls : Storage) :
  unusedSlotsEmpty ls -> unusedSlotsEmpty (saveTokens a EmptyString ls).
Proof.
  intros [_ Hdata]. split.
  - right. apply saveTokens_get.
  - unfold saveTokens. now rewrite !lookup_insert_ne by discriminate.
Qed.

(** X18.  No session action ever stores a refresh token or user data:
    a storage whose refresh slot is absent or empty and whose user-data
    slot is absent stays so through login, register, logout and
    initialisation, whatever the server answers. *)
Theorem unused_slots_stay_empty (w : World) :
  unusedSlotsEmpty (localStorage w) ->
  (forall a ex, unusedSlotsEmpty (localStorage (final (attempt a ex) w))) /\
  (forall ex, unusedSlotsEmpty (localStorage (final (logoutUser ex) w))) /\
  (forall ex, unusedSlotsEmpty (localStorage (final (initializeAuth ex) w))).
Proof.
  intros Hw. split; [| split].
  - intros a ex. destruct a as [c | d]; run_all;
      destruct (settled ex) as [[p |] [| e errors] | err]; simpl;
      destruct (tearsDown ex); simpl;
      auto using clearTokens_unused, saveTokens_unused.
  - intros ex. unfold final. rewrite logoutUser_run. simpl. apply clearTokens_unused.
  - intros ex. run_all.
    destruct (getAccessToken (localStorage w)) as [t |]; simpl; [| exact Hw].
    destruct (negb (String.eqb t EmptyString)); simpl; [| exact Hw].
    rewrite execute_run.
    destruct (settled ex) as [[u |] errors | err]; simpl;
      destruct (tearsDown ex); simpl;
      auto using clearTokens_unused.
Qed.

Lemma unused_slots_stay_empty_witness :
  unusedSlotsEmpty (localStorage Scenario.freshWorld) /\
  unusedSlotsEmpty
    (localStorage (final (attempt (LoginAttempt Scenario.credentials)
                            (Scenario.answered Samples.aliceLogin))
                         Scenario.freshWorld)).
Proof.
  assert (H : unusedSlotsEmpty (localStorage Scenario.freshWorld))
    by (split; [left |]; reflexivity).
  split; [exact H |].
  apply (unused_slots_stay_empty Scenario.freshWorld H).
Defined.

(** X19.  The credential follows the session: after a login that
    stored a non-empty token the next request carries that token as
    bearer credential, and after a logout the next request carries no
    [authorization] header. *)
Theorem header_follows_session
  (credentials : LoginCredentials) (ex : Exchange AuthPayload) (p : AuthPayload)
  (ex' : Exchange unit) (w : World) :
  succeeds ex p -> payload_accessToken p <> EmptyString ->
  AuthLink.authLink (localStorage (final (loginUser credentials ex) w)) ∅
  = {["authorization" := bearer (payload_accessToken p)]} /\
  AuthLink.authLink
    (localStorage (final (logoutUser ex') (final (loginUser credentials ex) w))) ∅
  = ∅.
Proof.
  intros Hok Hne.
  destruct (loginUser_accepts credentials ex p w Hok) as (_ & Hstore).
  split.
  - rewrite Hstore. unfold AuthLink.authLink.
    destruct (saveTokens_get (payload_accessToken p) EmptyString (localStorage w))
      as [-> _].
    rewrite (truthy_nonempty _ Hne). now rewrite insert_empty.
  - unfold final at 1. rewrite logoutUser_run. simpl.
    unfold AuthLink.authLink.
    now rewrite (clearTokens_lookup _ ACCESS_TOKEN : getAccessToken _ = None).
Qed.

Lemma header_follows_session_witness :
  succeeds (Scenario.answered Samples.aliceLogin) Samples.aliceLogin /\
  AuthLink.authLink
    (localStorage (final (loginUser Scenario.credentials
                            (Scenario.answered Samples.aliceLogin))
                         Scenario.freshWorld)) ∅ !! "authorization"
  = Some "Bearer token-1".
Proof.
  assert (H : succeeds (Scenario.answered Samples.aliceLogin) Samples.aliceLogin)
    by (split; reflexivity).
  split; [exact H |].
  destruct (header_follows_session Scenario.credentials _ _ Scenario.offline
              Scenario.freshWorld H)
    as [Hheader _]; [discriminate |].
  rewrite Hheader. reflexivity.
Defined.

(** X20.  A session survives a reload when its token is not empty: a
    page that starts on the storage a successful login left, and whose
    [me] query succeeds, is authenticated with the stored token.  With
    an empty token from the server the login itself ends
    [AUTHENTICATED], but the page that starts afterwards ends
    [UNAUTHENTICATED] without asking the server. *)
Theorem login_then_reload
  (credentials : LoginCredentials) (ex : Exchange AuthPayload) (p : AuthPayload)
  (ex' : Exchange User) (me : User) (w : World) :
  succeeds ex p -> succeeds ex' me ->
  status (auth (final (loginUser credentials ex) w)) = AUTHENTICATED /\
  (payload_accessToken p <> EmptyString ->
   auth (final (initializeAuth ex')
               (startup (localStorage (final (loginUser credentials ex) w))))
   = {| user := Some me; accessToken := Some (payload_accessToken p);
        refreshToken := Some EmptyString; status := AUTHENTICATED;
        error := None |}) /\
  (payload_accessToken p = EmptyString ->
   auth (final (initializeAuth ex')
               (startup (localStorage (final (loginUser credentials ex) w))))
   = {| user := None; accessToken := None; refreshToken := None;
        status := UNAUTHENTICATED; error := None |} /\
   network (final (initializeAuth ex')
                  (startup (localStorage (final (loginUser credentials ex) w))))
   = []).
Proof.
  intros Hok Hme.
  destruct (loginUser_accepts credentials ex p w Hok) as (Hauth & Hstore).
  split; [now rewrite Hauth |].
  assert (Htoken : getAccessToken
                     (localStorage
                        (startup (localStorage (final (loginUser credentials ex) w))))
                   = Some (payload_accessToken p)).
  { simpl. rewrite Hstore. apply saveTokens_get. }
  split.
  - intros Hne.
    exact (initializeAuth_accepts ex' me _ _ Htoken Hne Hme).
  - intros Hempty. rewrite Hempty in Htoken.
    destruct (initializeAuth_empty_token ex' _ Htoken) as [_ Hnet].
    split; [| exact Hnet].
    revert Htoken. generalize (localStorage (final (loginUser credentials ex) w)).
    intros ls Htoken. run_all. simpl in Htoken. rewrite Htoken. reflexivity.
Qed.

Lemma login_then_reload_witness :
  succeeds (Scenario.answered Samples.aliceLogin) Samples.aliceLogin /\
  succeeds (Scenario.answered Scenario.alice) Scenario.alice /\
  status (auth (final (initializeAuth (Scenario.answered Scenario.alice))
                      (startup (localStorage
                                  (final (loginUser Scenario.credentials
                                            (Scenario.answered Samples.aliceLogin))
                                         Scenario.freshWorld)))))
  = AUTHENTICATED.
Proof.
  assert (H1 : succeeds (Scenario.answered Samples.aliceLogin) Samples.aliceLogin)
    by (split; reflexivity).
  assert (H2 : succeeds (Scenario.answered Scenario.alice) Scenario.alice)
    by (split; reflexivity).
  split; [exact H1 |]. split; [exact H2 |].
  destruct (login_then_reload Scenario.credentials _ _ _ _ Scenario.freshWorld H1 H2)
    as (_ & Hkeep & _).
  rewrite Hkeep; [reflexivity | discriminate].
Defined.

(** X21.  Two responses through the error link leave the token store
    and the session state the same in either order, and a session that
    one of them tore down is not brought back by the other. *)
Theorem errorLink_order (r1 r2 : ErrorResponse) (w : World) :
  localStorage (final (errorLink r2) (final (errorLink r1) w))
  = localStorage (final (errorLink r1) (final (errorLink r2) w)) /\
  auth (final (errorLink r2) (final (errorLink r1) w))
  = auth (final (errorLink r1) (final (errorLink r2) w)) /\
  (carriesAuthCode r1 \/ carriesAuthCode r2 ->
   slotsCleared (localStorage (final (errorLink r2) (final (errorLink r1) w))) /\
   auth (final (errorLink r2) (final (errorLink r1) w)) = signedOut).
Proof.
  unfold final. rewrite !errorLink_run. simpl.
  assert (Hyes : forall r, carriesAuthCode r ->
            match graphQLErrors r with
            | Some errors => isAuthError errors
            | None => false
            end = true).
  { intros r (errors & e & -> & Hin & Hcode). apply isAuthError_carries. eauto. }
  split; [| split].
  - destruct (match graphQLErrors r1 with Some _ => _ | None => _ end),
             (match graphQLErrors r2 with Some _ => _ | None => _ end);
      now rewrite ?clearTokens_idemp.
  - destruct (match graphQLErrors r1 with Some _ => _ | None => _ end),
             (match graphQLErrors r2 with Some _ => _ | None => _ end);
      reflexivity.
  - intros [H | H]; rewrite (Hyes _ H);
      destruct (match graphQLErrors _ with Some _ => _ | None => _ end);
      auto using clearTokens_cleared.
Qed.

Lemma errorLink_order_witness :
  carriesAuthCode {| graphQLErrors := Some [Scenario.wrongPassword];
                     networkError := None |} /\
  auth (final (errorLink {| graphQLErrors := Some [Scenario.badInput];
                            networkError := None |})
              (final (errorLink {| graphQLErrors := Some [Scenario.wrongPassword];
                                   networkError := None |})
                     Scenario.signedInWorld)) = signedOut.
Proof.
  assert (H : carriesAuthCode {| graphQLErrors := Some [Scenario.wrongPassword];
                                 networkError := None |}).
  { exists [Scenario.wrongPassword], Scenario.wrongPassword.
    split; [reflexivity |]. split; [now left | now left]. }
  split; [exact H |].
  apply (errorLink_order
           {| graphQLErrors := Some [Scenario.wrongPassword]; networkError := None |}
           {| graphQLErrors := Some [Scenario.badInput]; networkError := None |}
           Scenario.signedInWorld).
  left. exact H.
Defined.

End SessionComposition.

(** ** The protected route, the navigation bar and the forms *)

Section ComponentsFacts.

Import Components Lifecycle.

#[local] Arguments execute {D} op ex w : simpl never.

Ltac run_page :=
  unfold final, outcome, attempt, loginUser, registerUser, logoutUser,
    initializeAuth, try_catch, bind, mutate, query, readStorage, field;
  simpl; rewrite ?execute_run; unfold afterExchange.

(** X22.  The protected route shows its children exactly when the
    status is [AUTHENTICATED] and a user is present, the spinner
    exactly when the status is [IDLE] or [LOADING], and in every other
    state it redirects to the login page; with status [AUTHENTICATED]
    and no user it redirects. *)
Theorem ProtectedRoute_views (s : AuthState) :
  (ProtectedRoute s = Children <-> status s = AUTHENTICATED /\ user s <> None) /\
  (ProtectedRoute s = Spinner <-> status s = IDLE \/ status s = LOADING) /\
  (ProtectedRoute s <> Children -> ProtectedRoute s <> Spinner ->
   ProtectedRoute s = NavigateTo "/login").
Proof.
  unfold ProtectedRoute, selectIsAuthenticated, selectAuthStatus.
  destruct (status s), (user s) as [u |]; simpl;
    repeat split; try discriminate; try congruence; auto;
    try (intros [H | H]; discriminate H);
    try (intros [H _]; discriminate H);
    try (intros [_ H]; congruence).
Qed.

Lemma ProtectedRoute_views_witness :
  ProtectedRoute (auth Scenario.signedInWorld) = Children /\
  ProtectedRoute (reducer initialState (SetStatus AUTHENTICATED))
  = NavigateTo "/login".
Proof.
  split.
  - apply (ProtectedRoute_views (auth Scenario.signedInWorld)).
    split; [reflexivity | discriminate].
  - apply (ProtectedRoute_views (reducer initialState (SetStatus AUTHENTICATED)));
      discriminate.
Defined.

(** X23.  Where the session actions leave the protected route: never
    at the spinner.  After a logout and after a registration (whatever
    its result) it redirects to the login page; after a login it shows
    its children exactly when the login was fulfilled, and redirects
    otherwise, also when a user was signed in before. *)
Theorem ProtectedRoute_after_actions (w : World) :
  (forall ex, ProtectedRoute (auth (final (logoutUser ex) w)) = NavigateTo "/login") /\
  (forall d ex,
     ProtectedRoute (auth (final (registerUser d ex) w)) = NavigateTo "/login") /\
  (forall c ex,
     ProtectedRoute (auth (final (loginUser c ex) w))
     = match outcome (loginUser c ex) w with
       | Normal (Fulfilled _) => Children
       | _ => NavigateTo "/login"
       end) /\
  (forall ex, ProtectedRoute (auth (final (initializeAuth ex) w)) <> Spinner).
Proof.
  split; [| split; [| split]].
  - intros ex. unfold final. now rewrite logoutUser_run.
  - intros d ex. run_page.
    destruct (settled ex) as [[p |] [| e errors] | err]; reflexivity.
  - intros c ex. run_page.
    destruct (settled ex) as [[p |] [| e errors] | err]; reflexivity.
  - intros ex. run_page.
    destruct (getAccessToken (localStorage w)) as [t |]; simpl; [| discriminate].
    destruct (negb (String.eqb t EmptyString)); simpl; [| discriminate].
    rewrite execute_run.
    destruct (settled ex) as [[u |] errors | err]; discriminate.
Qed.

(** X24.  The navigation bar and the protected route agree: the bar
    shows the greeting and the logout button exactly when the route
    shows its children, and the name it greets is then the name of the
    user in the state, never a missing one. *)
Theorem Navbar_agrees (s : AuthState) :
  ((exists name, Navbar s = WelcomeLogout name) <-> ProtectedRoute s = Children) /\
  (forall name, Navbar s = WelcomeLogout name ->
     exists u, user s = Some u /\ name = Some (user_name u)).
Proof.
  unfold Navbar, ProtectedRoute, selectIsAuthenticated, selectAuthStatus,
    selectCurrentUser.
  destruct (status s), (user s) as [u |]; simpl; split;
    try (split; [intros [name H]; discriminate H | intros H; discriminate H]);
    try (intros name H; discriminate H).
  - split; [reflexivity | intros _; eexists; reflexivity].
  - intros name [= <-]. now exists u.
Qed.

Lemma Navbar_agrees_witness :
  Navbar (auth Scenario.signedInWorld) = WelcomeLogout (Some "A") /\
  ProtectedRoute (auth Scenario.signedInWorld) = Children.
Proof.
  assert (H : Navbar (auth Scenario.signedInWorld) = WelcomeLogout (Some "A"))
    by reflexivity.
  split; [exact H |].
  apply (Navbar_agrees (auth Scenario.signedInWorld)). now exists (Some "A").
Defined.

Lemma isEmpty_spec (s : string) : isEmpty s = true <-> s = EmptyString.
Proof. unfold isEmpty. now destruct (String.eqb_spec s EmptyString). Qed.

Lemma registerValid_checks (f : RegisterForm) :
  registerValid f <->
  (isEmpty (rf_email f) || isEmpty (rf_password f) || isEmpty (rf_name f) = false
   /\ (String.length (rf_password f) <? 6) = false).
Proof.
  unfold registerValid.
  rewrite !orb_false_iff, Nat.ltb_ge.
  rewrite <- !not_true_iff_false, !isEmpty_spec. tauto.
Qed.

Lemma Register_handleSubmit_runs
  (f : RegisterForm) (ex : Exchange AuthPayload) (w : World) :
  registerValid f ->
  snd (Register_handleSubmit f ex w) = final (registerUser (registrationOf f) ex) w.
Proof.
  rewrite registerValid_checks. intros [Hfields Hlength].
  unfold Register_handleSubmit, registrationOf. simpl.
  rewrite Hfields, Hlength. unfold final.
  destruct (registerUser _ ex w) as [[[u | m] | e] w']; reflexivity.
Qed.

(** X25.  The register form sends nothing that fails its checks: with
    an empty field or a password shorter than six characters the
    handler leaves the world as it is, shows a validation message and
    does not navigate.  Otherwise it runs the register thunk on the
    form's values, and it navigates (to the login page, with the
    message to verify the e-mail address) exactly when the thunk is
    fulfilled. *)
Theorem Register_handleSubmit_spec
  (f : RegisterForm) (ex : Exchange AuthPayload) (w : World) :
  (~ registerValid f ->
   snd (Register_handleSubmit f ex w) = w /\
   navigated (fst (Register_handleSubmit f ex w)) = None /\
   rf_validationError (form (fst (Register_handleSubmit f ex w))) <> EmptyString) /\
  (registerValid f ->
   snd (Register_handleSubmit f ex w) = final (registerUser (registrationOf f) ex) w /\
   rf_validationError (form (fst (Register_handleSubmit f ex w))) = EmptyString /\
   navigated (fst (Register_handleSubmit f ex w))
   = match outcome (registerUser (registrationOf f) ex) w with
     | Normal (Fulfilled _) =>
         Some {| nav_to := "/login"; nav_message := Some registrationMessage |}
     | _ => None
     end).
Proof.
  rewrite registerValid_checks. unfold Register_handleSubmit, registrationOf.
  simpl.
  destruct (isEmpty (rf_email f) || isEmpty (rf_password f) || isEmpty (rf_name f));
    simpl.
  - split; [intros _; repeat split; discriminate | intros [H _]; discriminate H].
  - destruct (String.length (rf_password f) <? 6); simpl.
    + split; [intros _; repeat split; discriminate | intros [_ H]; discriminate H].
    + split; [intros H; now destruct H | intros _].
      unfold final, outcome.
      destruct (registerUser _ ex w) as [[[u | m] | e] w']; simpl; repeat split.
Qed.

Lemma Register_handleSubmit_spec_witness :
  ~ registerValid Samples.shortPasswordForm /\
  snd (Register_handleSubmit Samples.shortPasswordForm
         (Scenario.answered Scenario.created) Scenario.freshWorld)
  = Scenario.freshWorld /\
  registerValid Samples.filledForm /\
  navigated (fst (Register_handleSubmit Samples.filledForm
                    (Scenario.answered Scenario.created) Scenario.freshWorld))
  = Some {| nav_to := "/login"; nav_message := Some registrationMessage |}.
Proof.
  assert (Hbad : ~ registerValid Samples.shortPasswordForm).
  { intros (_ & _ & _ & H). simpl in H. lia. }
  assert (Hgood : registerValid Samples.filledForm).
  { repeat split; try discriminate. simpl. lia. }
  split; [exact Hbad |]. split.
  - apply (Register_handleSubmit_spec Samples.shortPasswordForm
             (Scenario.answered Scenario.created) Scenario.freshWorld).
    exact Hbad.
  - split; [exact Hgood |].
    destruct (Register_handleSubmit_spec Samples.filledForm
                (Scenario.answered Scenario.created) Scenario.freshWorld)
      as [_ Hrun].
    destruct (Hrun Hgood) as (_ & _ & Hnav). rewrite Hnav. reflexivity.
Defined.

(** X26.  The login form sends nothing while the e-mail address or the
    password is empty: the handler leaves the world as it is and shows
    a validation message.  Otherwise it runs the login thunk on the
    form's values and navigates to the home page exactly when the
    thunk is fulfilled; a rejected login is handed to [console.error]
    with the rejected message. *)
Theorem Login_handleSubmit_spec
  (f : LoginForm) (ex : Exchange AuthPayload) (w : World) :
  (lf_email f = EmptyString \/ lf_password f = EmptyString ->
   snd (Login_handleSubmit f ex w) = w /\
   navigated (fst (Login_handleSubmit f ex w)) = None /\
   lf_validationError (form (fst (Login_handleSubmit f ex w))) <> EmptyString) /\
  (lf_email f <> EmptyString -> lf_password f <> EmptyString ->
   snd (Login_handleSubmit f ex w) = final (loginUser (credentialsOf f) ex) w /\
   navigated (fst (Login_handleSubmit f ex w))
   = match outcome (loginUser (credentialsOf f) ex) w with
     | Normal (Fulfilled _) => Some {| nav_to := "/"; nav_message := None |}
     | _ => None
     end /\
   (forall message,
      outcome (loginUser (credentialsOf f) ex) w = Normal (RejectWithValue message) ->
      reported (fst (Login_handleSubmit f ex w)) = Some message)).
Proof.
  unfold Login_handleSubmit, credentialsOf.
  destruct (isEmpty (lf_email f)) eqn:He; simpl.
  - apply isEmpty_spec in He.
    split; [intros _; repeat split; discriminate | intros H; now destruct H].
  - destruct (isEmpty (lf_password f)) eqn:Hp; simpl.
    + apply isEmpty_spec in Hp.
      split; [intros _; repeat split; discriminate | intros _ H; now destruct H].
    + apply not_true_iff_false in He, Hp. rewrite isEmpty_spec in He, Hp.
      split; [intros [H | H]; contradiction | intros _ _].
      unfold final, outcome.
      destruct (loginUser _ ex w) as [[[u | m] | e] w']; simpl;
        repeat split; try discriminate.
      now intros message [= <-].
Qed.

Lemma Login_handleSubmit_spec_witness :
  lf_email Samples.loginForm <> EmptyString /\
  lf_password Samples.loginForm <> EmptyString /\
  navigated (fst (Login_handleSubmit Samples.loginForm
                    (Scenario.answered Samples.aliceLogin) Scenario.freshWorld))
  = Some {| nav_to := "/"; nav_message := None |}.
Proof.
  assert (He : lf_email Samples.loginForm <> EmptyString) by discriminate.
  assert (Hp : lf_password Samples.loginForm <> EmptyString) by discriminate.
  split; [exact He |]. split; [exact Hp |].
  destruct (Login_handleSubmit_spec Samples.loginForm
              (Scenario.answered Samples.aliceLogin) Scenario.freshWorld)
    as [_ Hrun].
  destruct (Hrun He Hp) as (_ & Hnav & _). rewrite Hnav. reflexivity.
Defined.

(** X27.  The login form never raises its not-verified flag: the thunk
    rejects with a message string and never throws, a string has no
    [message] property, so the test on [error?.message] fails for every
    form, exchange and world, also when the server's message holds the
    words the handler looks for. *)
Theorem Login_never_flags_unverified
  (f : LoginForm) (ex : Exchange AuthPayload) (w : World) :
  lf_isEmailNotVerified (form (fst (Login_handleSubmit f ex w))) = false.
Proof.
  unfold Login_handleSubmit.
  destruct (isEmpty (lf_email f) || isEmpty (lf_password f)); [reflexivity |].
  destruct (attempt_normal (LoginAttempt (credentialsOf f)) ex w) as [r Hr].
  unfold outcome, attempt, credentialsOf in Hr.
  destruct (loginUser _ ex w) as [c w']. simpl in Hr. subst c.
  now destruct r.
Qed.

(** The server refuses with the words the handler looks for, and the
    flag stays down. *)
Example Login_unverified_account :
  reported (fst (Login_handleSubmit Samples.loginForm
                   (Scenario.refusedThrowing Samples.notVerified)
                   Scenario.freshWorld))
  = Some "Please verify your email before logging in" /\
  includes "Please verify your email before logging in" "verify your email" = true /\
  lf_isEmailNotVerified
    (form (fst (Login_handleSubmit Samples.loginForm
                  (Scenario.refusedThrowing Samples.notVerified)
                  Scenario.freshWorld))) = false.
Proof. repeat split; reflexivity. Qed.

(** X28.  The reset form calls the mutation exactly when the two
    passwords are equal, have at least eight characters and the link
    carried a non-empty token. *)
Theorem ResetPassword_validation_spec
  (token : option string) (newPassword confirmPassword : string) :
  ResetPassword_validation token newPassword confirmPassword = None <->
  newPassword = confirmPassword /\ 8 <= String.length newPassword /\
  exists t, token = Some t /\ t <> EmptyString.
Proof.
  unfold ResetPassword_validation.
  destruct (isEmpty newPassword) eqn:Hn; simpl.
  { apply isEmpty_spec in Hn. subst. split; [discriminate |].
    intros (_ & H & _). simpl in H. lia. }
  destruct (isEmpty confirmPassword) eqn:Hc; simpl.
  { apply isEmpty_spec in Hc. subst. split; [discriminate |].
    intros (-> & H & _). simpl in H. lia. }
  destruct (String.eqb_spec newPassword confirmPassword) as [<- | Hne]; simpl;
    [| split; [discriminate | intros (H & _); contradiction]].
  destruct (Nat.ltb_spec (String.length newPassword) 8) as [Hlt | Hge];
    [split; [discriminate | intros (_ & H & _); lia] |].
  destruct token as [t |]; simpl.
  - destruct (isEmpty t) eqn:Ht.
    + apply isEmpty_spec in Ht. subst.
      split; [discriminate | intros (_ & _ & t & [= <-] & H); now destruct H].
    + apply not_true_iff_false in Ht. rewrite isEmpty_spec in Ht.
      split; [intros _; repeat split; eauto | reflexivity].
  - split; [discriminate | intros (_ & _ & t & H & _); discriminate H].
Qed.

Lemma ResetPassword_validation_spec_witness :
  ResetPassword_validation (Some "reset-token") "pw123456" "pw123456" = None.
Proof.
  apply (ResetPassword_validation_spec (Some "reset-token") "pw123456" "pw123456").
  split; [reflexivity |]. split; [simpl; lia |].
  exists "reset-token". split; [reflexivity | discriminate].
Defined.

(** X29.  The two forms disagree on the length of a password: one of
    six or seven characters passes the checks of the register form, so
    the account is registered with it, and the reset form refuses the
    same password as too short. *)
Theorem password_length_mismatch
  (f : RegisterForm) (t : string) (ex : Exchange AuthPayload) (w : World) :
  registerValid f -> String.length (rf_password f) < 8 ->
  snd (Register_handleSubmit f ex w) = final (registerUser (registrationOf f) ex) w /\
  ResetPassword_validation (Some t) (rf_password f) (rf_password f)
  = Some "Password must be at least 8 characters long".
Proof.
  intros Hvalid Hshort. split.
  - now apply Register_handleSubmit_runs.
  - destruct Hvalid as (_ & Hp & _ & Hlen). unfold ResetPassword_validation.
    destruct (isEmpty (rf_password f)) eqn:He;
      [apply isEmpty_spec in He; contradiction |].
    simpl. rewrite String.eqb_refl. simpl.
    destruct (Nat.ltb_spec (String.length (rf_password f)) 8); [reflexivity | lia].
Qed.

Lemma password_length_mismatch_witness :
  registerValid Samples.sixCharacterForm /\
  String.length (rf_password Samples.sixCharacterForm) < 8 /\
  ResetPassword_validation (Some "reset-token") "pw1234" "pw1234"
  = Some "Password must be at least 8 characters long".
Proof.
  assert (Hvalid : registerValid Samples.sixCharacterForm).
  { repeat split; try discriminate. simpl. lia. }
  assert (Hshort : String.length (rf_password Samples.sixCharacterForm) < 8)
    by (simpl; lia).
  split; [exact Hvalid |]. split; [exact Hshort |].
  apply (password_length_mismatch Samples.sixCharacterForm "reset-token"
           (Scenario.answered Scenario.created) Scenario.freshWorld Hvalid Hshort).
Defined.

End ComponentsFacts.
